(** * Outline extraction (src/main.py): a shallow embedding and its properties

    The development follows the class [EnhancedPDFOutlineExtractor].

    Modelling conventions.
    - A Python [str] is a list of Unicode code points ([N]).  Whitespace is
      Python's own table (the one behind [str.strip], [str.isspace] and the
      [\s] class of [re]).  Case mapping ([lower], [isupper], the
      [re.IGNORECASE] flag) and the [\d] class are modelled on the ASCII
      range; other code points are left unchanged by [lower] and are neither
      digits nor cased.
    - Font sizes and coordinates are rationals ([Q]); the products with the
      constants 1.1, 1.2, 1.3 and 1.4 are exact.
    - The layout dictionary of [page.get_text("dict")] is a list of blocks,
      a block having an optional list of lines and an optional type.
    - [re.match] is membership of a prefix of the text in the language of
      the pattern, decided by Brzozowski derivatives. *)

From Stdlib Require Import List Bool Arith ZArith NArith QArith Lia Lqa.
From Stdlib Require Import Ascii String Permutation Sorted.
Import ListNotations.

Set Implicit Arguments.
Close Scope Q_scope.
Open Scope Z_scope.

(** ** Strings *)

Module Str.

Local Open Scope N_scope.

Definition char := N.
Definition str := list char.

Definition chr (a : ascii) : char := N_of_ascii a.

(** A literal of the source, for ASCII text. *)
Definition lit (s : string) : str := map chr (list_ascii_of_string s).

Definition in_range (lo hi c : char) : bool := (N.leb lo c && N.leb c hi)%bool.

(** [str.isspace] on one code point. *)
Definition is_space (c : char) : bool :=
  (in_range 9 13 c || in_range 28 31 c || N.eqb c 32 || N.eqb c 133
   || N.eqb c 160 || N.eqb c 5760 || in_range 8192 8202 c
   || N.eqb c 8232 || N.eqb c 8233 || N.eqb c 8239 || N.eqb c 8287
   || N.eqb c 12288)%bool.

Definition is_digit (c : char) : bool := in_range 48 57 c.
Definition is_upper (c : char) : bool := in_range 65 90 c.
Definition is_lower (c : char) : bool := in_range 97 122 c.

Definition to_lower (c : char) : char := if is_upper c then (c + 32)%N else c.
Definition to_upper (c : char) : char := if is_lower c then (c - 32)%N else c.

(** [text.lower()] *)
Definition lower (s : str) : str := map to_lower s.

(** [text.isupper()]: no lowercase cased character, and one cased
    character at least. *)
Definition isupper (s : str) : bool :=
  (forallb (fun c => negb (is_lower c)) s && existsb is_upper s)%bool.

Fixpoint lstrip (s : str) : str :=
  match s with
  | c :: s' => if is_space c then lstrip s' else s
  | [] => []
  end.

Definition rstrip (s : str) : str := rev (lstrip (rev s)).

(** [text.strip()] *)
Definition strip (s : str) : str := rstrip (lstrip s).

Definition char_eqb (a b : char) : bool := N.eqb a b.

Fixpoint str_eqb (a b : str) : bool :=
  match a, b with
  | [], [] => true
  | x :: a', y :: b' => (char_eqb x y && str_eqb a' b')%bool
  | _, _ => false
  end.

(** [text.startswith(p)] *)
Fixpoint startswith (p s : str) : bool :=
  match p, s with
  | [], _ => true
  | x :: p', y :: s' => (char_eqb x y && startswith p' s')%bool
  | _ :: _, [] => false
  end.

(** [p in s] for strings *)
Fixpoint contains (p s : str) : bool :=
  (startswith p s || match s with [] => false | _ :: s' => contains p s' end)%bool.

(** Python's [len], as an integer *)
Definition len (s : str) : Z := Z.of_nat (List.length s).

(** [sep.join(parts)] *)
Fixpoint join (sep : str) (parts : list str) : str :=
  match parts with
  | [] => []
  | [p] => p
  | p :: rest => p ++ sep ++ join sep rest
  end.

End Str.
Import Str.

(** ** Regular expressions: [re.match] *)

Module Re.

Inductive regex : Type :=
| Void
| Eps
| Cls (p : char -> bool)
| Cat (a b : regex)
| Alt (a b : regex)
| Star (a : regex).

Definition Plus (r : regex) : regex := Cat r (Star r).
Definition Opt (r : regex) : regex := Alt r Eps.
(** [r{2,}] *)
Definition AtLeast2 (r : regex) : regex := Cat r (Cat r (Star r)).

Definition Chr (a : ascii) : regex := Cls (char_eqb (chr a)).

(** Under [re.IGNORECASE] a character is in a class when one of its two
    cases is. *)
Definition icase (p : char -> bool) : char -> bool :=
  fun c => (p (to_lower c) || p (to_upper c))%bool.

(** A literal word under [re.IGNORECASE]. *)
Fixpoint ILit (w : str) : regex :=
  match w with
  | [] => Eps
  | c :: w' => Cat (Cls (icase (char_eqb c))) (ILit w')
  end.

(** The words of a pattern. *)
Inductive lang : regex -> str -> Prop :=
| LEps : lang Eps []
| LCls p c : p c = true -> lang (Cls p) [c]
| LCat a b u v : lang a u -> lang b v -> lang (Cat a b) (u ++ v)
| LAltL a b u : lang a u -> lang (Alt a b) u
| LAltR a b u : lang b u -> lang (Alt a b) u
| LStar0 a : lang (Star a) []
| LStarS a u v : lang a u -> lang (Star a) v -> lang (Star a) (u ++ v).

Fixpoint nullable (r : regex) : bool :=
  match r with
  | Void => false
  | Eps => true
  | Cls _ => false
  | Cat a b => (nullable a && nullable b)%bool
  | Alt a b => (nullable a || nullable b)%bool
  | Star _ => true
  end.

(** Constructors that absorb [Void] and [Eps], to keep derivatives small. *)
Definition mkCat (a b : regex) : regex :=
  match a, b with
  | Void, _ => Void
  | _, Void => Void
  | Eps, _ => b
  | _, _ => Cat a b
  end.

Definition mkAlt (a b : regex) : regex :=
  match a, b with
  | Void, _ => b
  | _, Void => a
  | _, _ => Alt a b
  end.

Fixpoint der (c : char) (r : regex) : regex :=
  match r with
  | Void => Void
  | Eps => Void
  | Cls p => if p c then Eps else Void
  | Cat a b =>
      if nullable a then mkAlt (mkCat (der c a) b) (der c b)
      else mkCat (der c a) b
  | Alt a b => mkAlt (der c a) (der c b)
  | Star a => mkCat (der c a) (Star a)
  end.

(** The pattern is tried at the start of the text; [final] is what the end
    of the pattern asks of the rest of the text. *)
Fixpoint run (final : str -> bool) (r : regex) (s : str) : bool :=
  ((nullable r && final s)
   || match s with
      | [] => false
      | c :: s' => run final (der c r) s'
      end)%bool.

(** [$] without [re.MULTILINE]: the end of the text, or just before a
    newline that ends the text. *)
Definition at_end (s : str) : bool :=
  match s with
  | [] => true
  | [c] => N.eqb c 10
  | _ => false
  end.

(** [re.match('^r', s)] *)
Definition re_match (r : regex) (s : str) : bool := run (fun _ => true) r s.

(** [re.match('^r$', s)] *)
Definition re_match_end (r : regex) (s : str) : bool := run at_end r s.

End Re.
Import Re.

(** ** Exceptions *)

Module Exc.

Inductive exn : Type :=
| IndexError      (* a page number outside the document *)
| ValueError      (* PyMuPDF: an operation on a closed document *)
| FileDataError.  (* PyMuPDF: the file cannot be opened *)

Inductive exc (A : Type) : Type :=
| Ok (a : A)
| Raise (e : exn).

Arguments Ok {A} a.
Arguments Raise {A} e.

Definition bind {A B : Type} (m : exc A) (k : A -> exc B) : exc B :=
  match m with
  | Ok a => k a
  | Raise e => Raise e
  end.

End Exc.
Import Exc.

Notation "x <- m ;; k" := (bind m (fun x => k))
  (at level 61, m at next level, right associativity).

(** ** The layout a document is read as *)

Module Layout.

Record bbox : Type := Bbox { x0 : Q; y0 : Q; x1 : Q; y1 : Q }.

(** A span of [line["spans"]]: the keys [text], [size] and [flags] are
    always there, [bbox] is read with [span.get]. *)
Record span : Type := Span {
  span_text : str;
  span_size : Q;
  span_flags : Z;
  span_bbox : option bbox
}.

(** A line, by its [line["spans"]]. *)
Definition line := list span.

(** A block: [block["lines"]] when the key is there, and
    [block.get("type")]. *)
Record block : Type := Block {
  block_lines : option (list line);
  block_type : option Z
}.

(** [page.get_text("dict").get("blocks", [])] *)
Definition page := list block.

(** An entry [[level, label, page]] of [doc.get_toc()]. *)
Record toc_entry : Type := Toc {
  toc_level : Z;
  toc_label : str;
  toc_page : Z
}.

Record document : Type := Document {
  doc_pages : list page;
  doc_toc : list toc_entry
}.

(** [len(self.doc)] *)
Definition doc_len (d : document) : Z := Z.of_nat (List.length (doc_pages d)).

(** [self.doc[page_num]], for the page numbers of this program, which are
    never negative. *)
Definition doc_getitem (d : document) (page_num : Z) : exc page :=
  if (page_num <? 0) || (doc_len d <=? page_num) then Raise IndexError
  else match nth_error (doc_pages d) (Z.to_nat page_num) with
       | Some p => Ok p
       | None => Raise IndexError
       end.

End Layout.
Import Layout.

(** ** Arithmetic on sizes *)

Definition Qgtb (a b : Q) : bool := negb (Qle_bool a b).
Definition Qgeb (a b : Q) : bool := Qle_bool b a.
Definition Qltb (a b : Q) : bool := negb (Qle_bool b a).

(** [max(a, b)] and [min(a, b)] of Python: the first argument unless the
    second is strictly beyond it. *)
Definition py_max (a b : Q) : Q := if Qgtb b a then b else a.
Definition py_min (a b : Q) : Q := if Qltb b a then b else a.

(** [flags & (1 << 4)], as a truth value. *)
Definition bold_flag (flags : Z) : bool := negb (Z.land flags (Z.shiftl 1 4) =? 0).

(** ** [_clean_text] *)

Definition is_control (c : char) : bool :=
  (in_range 0%N 8%N c || N.eqb c 11%N || N.eqb c 12%N
   || in_range 14%N 31%N c || N.eqb c 127%N)%bool.

(** Code points that UTF-8 cannot encode, which
    [encode('utf-8', 'ignore')] leaves out. *)
Definition is_surrogate (c : char) : bool := in_range 55296%N 57343%N c.

(** [re.sub(r'\s+', ' ', s)]; [in_run] tells that the previous character
    was whitespace, already replaced. *)
Fixpoint sub_spaces (in_run : bool) (s : str) : str :=
  match s with
  | [] => []
  | c :: s' =>
      if is_space c
      then (if in_run then sub_spaces true s' else 32%N :: sub_spaces true s')
      else c :: sub_spaces false s'
  end.

Definition _clean_text (text : str) : str :=
  let text := sub_spaces false (strip text) in
  let text := filter (fun c => negb (is_control c)) text in
  let text := filter (fun c => negb (is_surrogate c)) text in
  text.

(** ** [_analyze_document_fonts] *)

(** A [Counter]: the keys in the order of their first insertion, each with
    its count. *)
Definition counter := list (Q * Z).

Fixpoint counter_incr (x : Q) (c : counter) : counter :=
  match c with
  | [] => [(x, 1)]
  | (k, n) :: c' =>
      if Qeq_bool k x then (k, n + 1) :: c' else (k, n) :: counter_incr x c'
  end.

Definition Counter (l : list Q) : counter :=
  fold_left (fun c x => counter_incr x c) l [].

(** [max(items, key=itemgetter(1))], which is what [most_common(1)] runs:
    the best item is replaced only by a strictly greater count. *)
Fixpoint max_by_count (best : Q * Z) (items : counter) : Q * Z :=
  match items with
  | [] => best
  | it :: items' =>
      if snd it >? snd best then max_by_count it items'
      else max_by_count best items'
  end.

Definition most_common_1 (c : counter) : list (Q * Z) :=
  match c with
  | [] => []
  | it :: items => [max_by_count it items]
  end.

(** The sizes of the spans of one page whose stripped text is not empty, in
    scan order. *)
Definition span_sizes (spans : list span) : list Q :=
  flat_map (fun sp =>
    match strip (span_text sp) with
    | [] => []
    | _ :: _ => [span_size sp]
    end) spans.

Definition block_sizes (b : block) : list Q :=
  match block_lines b with
  | Some lines => flat_map span_sizes lines
  | None => []
  end.

Definition page_sizes (p : page) : list Q := flat_map block_sizes p.

(** The two fields the method sets: [self.font_sizes] and
    [self.common_font_size]. *)
Definition _analyze_document_fonts (d : document) : list Q * Q :=
  let font_sizes := flat_map page_sizes (firstn 3 (doc_pages d)) in
  let common :=
    match font_sizes with
    | [] => 12%Q
    | _ :: _ =>
        match most_common_1 (Counter font_sizes) with
        | it :: _ => fst it
        | [] => 12%Q
        end
    end in
  (font_sizes, common).

(** ** Sorting: [list.sort(key=...)] *)

(** [list.sort] is stable, and a stable sort has one result: the one of
    this insertion sort, where an element goes before the first element of
    the sorted tail that is not strictly below it. *)
Section Sort.

Variable A : Type.
Variable ltb : A -> A -> bool.

Fixpoint insert_sorted (x : A) (l : list A) : list A :=
  match l with
  | [] => [x]
  | y :: l' => if ltb y x then y :: insert_sorted x l' else x :: y :: l'
  end.

Fixpoint py_sort (l : list A) : list A :=
  match l with
  | [] => []
  | x :: l' => insert_sorted x (py_sort l')
  end.

End Sort.

(** ** Title detection *)

Definition UNKNOWN_TITLE : str := lit "Unknown Title".

Definition skip_words : list str :=
  [lit "copyright"; lit "version"; lit "page"; [169%N]; lit "confidential";
   lit "draft"; lit "revision"; lit "date"; lit "author"].

(** [self.common_font_size] is the argument [common_font_size]. *)
Definition _is_potential_title (common_font_size : Q) (text : str) (size : Q)
    (flags : Z) : bool :=
  match text with
  | [] => false
  | _ :: _ =>
      if (len text <? 3) || (len text >? 150) then false
      else if existsb (fun skip => contains (lower skip) (lower text)) skip_words
      then false
      else
        let is_bold := bold_flag flags in
        let is_large := Qgtb size (common_font_size * (12 # 10))%Q in
        is_large || is_bold
  end.

Record title_candidate : Type := TitleCandidate {
  tc_text : str;
  tc_size : Q;
  tc_y_pos : option Q   (* [None] is [float('inf')] *)
}.

(** [span.get("bbox", [0, 0, 0, 0])[1]] *)
Definition span_y (sp : span) : Q :=
  match span_bbox sp with
  | Some b => y0 b
  | None => 0%Q
  end.

(** [min(y_pos, y)] where [y_pos] starts at infinity. *)
Definition min_y (y_pos : option Q) (y : Q) : option Q :=
  match y_pos with
  | None => Some y
  | Some y' => Some (py_min y' y)
  end.

(** The loop over the spans of a line in [_extract_title_from_text]:
    [(line_text, max_size, y_pos, flags)]. *)
Definition title_span_step (acc : str * Q * option Q * Z) (sp : span)
    : str * Q * option Q * Z :=
  let '(line_text, max_size, y_pos, flags) := acc in
  match strip (span_text sp) with
  | [] => acc
  | text =>
      (line_text ++ text ++ lit " ",
       py_max max_size (span_size sp),
       min_y y_pos (span_y sp),
       Z.lor flags (span_flags sp))
  end.

Definition title_line_candidates (common_font_size : Q) (ln : line)
    : list title_candidate :=
  let '(line_text, max_size, y_pos, flags) :=
    fold_left title_span_step ln ([], 0%Q, None, 0) in
  let line_text := strip line_text in
  if _is_potential_title common_font_size line_text max_size flags
  then [TitleCandidate line_text max_size y_pos]
  else [].

Definition title_block_candidates (common_font_size : Q) (b : block)
    : list title_candidate :=
  match block_lines b with
  | Some lines => flat_map (title_line_candidates common_font_size) lines
  | None => []
  end.

(** The order on the keys [(-x['size'], x['y_pos'])]. *)
Definition y_pos_ltb (a b : option Q) : bool :=
  match a, b with
  | Some a, Some b => Qltb a b
  | Some _, None => true
  | None, _ => false
  end.

Definition title_key_ltb (a b : title_candidate) : bool :=
  if Qeq_bool (- tc_size a) (- tc_size b)
  then y_pos_ltb (tc_y_pos a) (tc_y_pos b)
  else Qltb (- tc_size a) (- tc_size b).

Definition _extract_title_from_text (d : document) (common_font_size : Q) : str :=
  match doc_pages d with
  | [] => UNKNOWN_TITLE
  | page :: _ =>
      let candidates := flat_map (title_block_candidates common_font_size) page in
      match candidates with
      | _ :: _ =>
          let candidates := py_sort title_key_ltb candidates in
          let combined := join (lit "  ") (map tc_text (firstn 2 candidates)) in
          _clean_text combined
      | [] => UNKNOWN_TITLE
      end
  end.

Definition toc_prefixes : list str :=
  [lit "table of contents"; lit "contents"; lit "toc"].

Definition _extract_title_enhanced (d : document) (common_font_size : Q) : str :=
  match doc_toc d with
  | entry :: _ =>
      let first_bookmark := strip (toc_label entry) in
      if match first_bookmark with [] => false | _ :: _ => true end
         && negb (existsb (fun p => startswith p (lower first_bookmark)) toc_prefixes)
         && (len first_bookmark >? 3)
      then _clean_text first_bookmark
      else _extract_title_from_text d common_font_size
  | [] => _extract_title_from_text d common_font_size
  end.

(** ** Heading patterns *)

(** A pattern ['^r'] or ['^r$']. *)
Inductive pattern : Type :=
| Prefix (r : regex)
| Whole (r : regex).

Definition pattern_match (p : pattern) (s : str) : bool :=
  match p with
  | Prefix r => re_match r s
  | Whole r => re_match_end r s
  end.

Definition digit : regex := Cls is_digit.
Definition space : regex := Cls is_space.
Definition nonspace : regex := Cls (fun c => negb (is_space c)).
Definition dot : regex := Chr ".".

(** [[A-Z]], [[a-z]] and [[A-Z\s]] under [re.IGNORECASE]. *)
Definition upper_i : regex := Cls (icase is_upper).
Definition lower_i : regex := Cls (icase is_lower).
Definition upper_space_i : regex := Cls (icase (fun c => is_upper c || is_space c)).

Definition Alts (l : list regex) : regex := fold_right Alt Void l.

Definition heading_patterns : list pattern :=
  [ (* "^\d+\.?\s+[A-Z]" *)
    Prefix (Cat (Plus digit) (Cat (Opt dot) (Cat (Plus space) upper_i)));
    (* "^\d+\.\d+\.?\s+" *)
    Prefix (Cat (Plus digit) (Cat dot (Cat (Plus digit) (Cat (Opt dot) (Plus space)))));
    (* "^(Chapter|Section|Part)\s+\d+" *)
    Prefix (Cat (Alts [ILit (lit "Chapter"); ILit (lit "Section"); ILit (lit "Part")])
                (Cat (Plus space) (Plus digit)));
    (* "^[A-Z][A-Z\s]{2,}$" *)
    Whole (Cat upper_i (AtLeast2 upper_space_i));
    (* title case: "^[A-Z][a-z]+", any number of groups "\s+[A-Z][a-z]*", "$" *)
    Whole (Cat upper_i (Cat (Plus lower_i)
             (Star (Cat (Plus space) (Cat upper_i (Star lower_i))))));
    (* "^(Abstract|Introduction|Conclusion|References|Bibliography|Acknowledgments?)$" *)
    Whole (Alts [ILit (lit "Abstract"); ILit (lit "Introduction");
                 ILit (lit "Conclusion"); ILit (lit "References");
                 ILit (lit "Bibliography");
                 Cat (ILit (lit "Acknowledgment")) (Opt (Cls (icase (char_eqb (chr "s")))))])
  ].

Definition _matches_heading_patterns (text : str) : bool :=
  existsb (fun p => pattern_match p (strip text)) heading_patterns.

(** ** Heading candidates *)

Inductive level : Type := H1 | H2 | H3.

(** [int(level[1])] *)
Definition level_digit (l : level) : Z :=
  match l with
  | H1 => 1
  | H2 => 2
  | H3 => 3
  end.

Record thresholds : Type := Thresholds { h1 : Q; h2 : Q; h3 : Q }.

(** [self.common_font_size or 12] *)
Definition _calculate_size_thresholds (common_font_size : Q) : thresholds :=
  let baseline := if Qeq_bool common_font_size 0 then 12%Q else common_font_size in
  Thresholds (baseline * (14 # 10))%Q (baseline * (12 # 10))%Q
             (baseline * (11 # 10))%Q.

Definition _calculate_confidence (common_font_size : Q) (text : str) (size : Q)
    (flags : Z) : Q :=
  let confidence := 0%Q in
  let confidence :=
    if Qgtb size (common_font_size * (13 # 10))%Q then (confidence + (3 # 10))%Q
    else if Qgtb size (common_font_size * (11 # 10))%Q then (confidence + (2 # 10))%Q
    else confidence in
  let confidence :=
    if bold_flag flags then (confidence + (2 # 10))%Q else confidence in
  let confidence :=
    if _matches_heading_patterns text then (confidence + (3 # 10))%Q
    else confidence in
  let confidence :=
    if (5 <=? len text) && (len text <=? 100) then (confidence + (1 # 10))%Q
    else confidence in
  py_min confidence 1%Q.

(** The dictionary [_analyze_line] returns. *)
Record line_data : Type := LineData {
  ld_text : str;
  ld_size : Q;
  ld_flags : Z;
  ld_bbox : option bbox;
  ld_confidence : Q
}.

(** [span.get("bbox", [0, 0, 0, 0])] *)
Definition span_bbox_or_zero (sp : span) : bbox :=
  match span_bbox sp with
  | Some b => b
  | None => Bbox 0 0 0 0
  end.

(** The loop over the spans in [_analyze_line]:
    [(line_text, max_size, flags, bbox)]. *)
Definition analyze_span_step (acc : str * Q * Z * option bbox) (sp : span)
    : str * Q * Z * option bbox :=
  let '(line_text, max_size, flags, bbox) := acc in
  match strip (span_text sp) with
  | [] => acc
  | text =>
      (line_text ++ text ++ lit " ",
       py_max max_size (span_size sp),
       Z.lor flags (span_flags sp),
       match bbox with
       | None => Some (span_bbox_or_zero sp)
       | Some b => Some b
       end)
  end.

Definition _analyze_line (common_font_size : Q) (ln : line) : option line_data :=
  let '(line_text, max_size, flags, bbox) :=
    fold_left analyze_span_step ln ([], 0%Q, 0, None) in
  let line_text := strip line_text in
  match line_text with
  | [] => None
  | _ :: _ =>
      if len line_text <? 2 then None
      else
        let confidence :=
          _calculate_confidence common_font_size line_text max_size flags in
        Some (LineData line_text max_size flags bbox confidence)
  end.

Definition _is_heading_candidate (ld : line_data) (th : thresholds) : bool :=
  let text := ld_text ld in
  let size := ld_size ld in
  if (len text >? 200) || (len text <? 3) then false
  else
    let meets_size := Qgeb size (h3 th) in
    let meets_pattern := _matches_heading_patterns text in
    let meets_confidence := Qgtb (ld_confidence ld) (4 # 10) in
    (meets_size || meets_pattern) && meets_confidence.

(** The three numbering patterns of [_determine_heading_level]:
    ["^\d+\.?\s+"], ["^\d+\.\d+\.?\s+"] and ["^\d+\.\d+\.\d+\.?\s+"]. *)
Definition numbering_1 : regex :=
  Cat (Plus digit) (Cat (Opt dot) (Plus space)).
Definition numbering_2 : regex :=
  Cat (Plus digit) (Cat dot (Cat (Plus digit) (Cat (Opt dot) (Plus space)))).
Definition numbering_3 : regex :=
  Cat (Plus digit) (Cat dot (Cat (Plus digit) (Cat dot
    (Cat (Plus digit) (Cat (Opt dot) (Plus space)))))).

Definition _determine_heading_level (ld : line_data) (th : thresholds) : level :=
  let text := ld_text ld in
  let size := ld_size ld in
  if re_match numbering_1 (strip text) then H1
  else if re_match numbering_2 (strip text) then H2
  else if re_match numbering_3 (strip text) then H3
  else if Qgeb size (h1 th) then H1
  else if Qgeb size (h2 th) then H2
  else H3.

(** The heading dictionary of the intermediate list. *)
Record heading : Type := Heading {
  h_level : level;
  h_text : str;
  h_page : Z;            (* 0-based *)
  h_confidence : Q;
  h_bbox : option bbox
}.

Definition metadata_words : list str :=
  [lit "overview"; lit "version"; lit "date"; lit "remarks";
   lit "identifier"; lit "reference"].

(** [prev['text'] += " " + more], on the heading [prev] refers to: the
    dictionary is the one in the list, at index [i]. *)
Fixpoint append_text_at (i : nat) (more : str) (hs : list heading) : list heading :=
  match hs, i with
  | [], _ => []
  | h :: hs', O =>
      Heading (h_level h) (h_text h ++ lit " " ++ more) (h_page h)
              (h_confidence h) (h_bbox h) :: hs'
  | h :: hs', S i' => h :: append_text_at i' more hs'
  end.

(** The body of the loop over the lines of a page.  The state is the list
    [headings] and the variable [prev], a reference into that list. *)
Definition page_line_step (extracted_title : str) (common_font_size : Q)
    (page_num : Z) (th : thresholds)
    (st : list heading * option nat) (ln : line) : list heading * option nat :=
  let '(headings, prev) := st in
  match _analyze_line common_font_size ln with
  | None => st
  | Some ld =>
      let text := strip (lower (ld_text ld)) in
      if existsb (str_eqb text) metadata_words && negb (page_num =? 0) then st
      else if str_eqb text extracted_title then st
      else if _is_heading_candidate ld th then
        let emit :=
          let lvl := _determine_heading_level ld th in
          let heading :=
            Heading lvl (_clean_text (ld_text ld)) page_num
                    (ld_confidence ld) (ld_bbox ld) in
          (headings ++ [heading], Some (List.length headings)) in
        match prev with
        | Some i =>
            if str_eqb (strip (lower (ld_text ld))) (lit "syllabus")
            then (append_text_at i (ld_text ld) headings, prev)
            else emit
        | None => emit
        end
      else st
  end.

Definition page_block_step (extracted_title : str) (common_font_size : Q)
    (page_num : Z) (th : thresholds)
    (st : list heading * option nat) (b : block) : list heading * option nat :=
  match block_lines b with
  | None => st
  | Some lines =>
      fold_left (page_line_step extracted_title common_font_size page_num th)
                lines st
  end.

Definition _extract_page_headings (extracted_title : str) (common_font_size : Q)
    (blocks : page) (page_num : Z) (th : thresholds) : list heading :=
  fst (fold_left (page_block_step extracted_title common_font_size page_num th)
                 blocks ([], None)).

(** ** The content-presence filter *)

(** [range(a, b)] *)
Definition range (a b : Z) : list Z :=
  map (fun i => a + Z.of_nat i) (seq 0 (Z.to_nat (b - a))).

(** [" ".join(span["text"].strip() for span in line["spans"]
              if span["text"].strip())] *)
Definition joined_line_text (ln : line) : str :=
  join (lit " ")
    (flat_map (fun sp =>
       match strip (span_text sp) with
       | [] => []
       | t => [t]
       end) ln).

(** ["^\s*[•\-\*•]\s+\S+"] *)
Definition bullet_item : regex :=
  Cat (Star space)
    (Cat (Cls (fun c => N.eqb c 8226 || char_eqb c (chr "-")
                        || char_eqb c (chr "*") || N.eqb c 8226))
       (Cat (Plus space) (Plus nonspace))).

(** ["^\s*\(?\d+[\.\)]\s+\S+"] *)
Definition numbered_item : regex :=
  Cat (Star space)
    (Cat (Opt (Chr "("))
       (Cat (Plus digit)
          (Cat (Cls (fun c => char_eqb c (chr ".") || char_eqb c (chr ")")))
             (Cat (Plus space) (Plus nonspace))))).

(** The two [continue] tests on a line that is not empty. *)
Definition line_skipped (h : heading) (line_text : str) : bool :=
  contains (lower (h_text h)) (lower line_text)
  || _matches_heading_patterns line_text.

(** The three tests that make a line content. *)
Definition line_is_content (line_text : str) : bool :=
  ((len line_text >? 40) && negb (isupper line_text))
  || re_match bullet_item line_text
  || re_match numbered_item line_text.

(** One line of the scan: [true] is [return True]. *)
Definition line_has_content (h : heading) (ln : line) : bool :=
  let line_text := joined_line_text ln in
  match line_text with
  | [] => false
  | _ :: _ =>
      if contains (lower (h_text h)) (lower line_text) then false
      else if _matches_heading_patterns line_text then false
      else if (len line_text >? 40) && negb (isupper line_text) then true
      else if re_match bullet_item line_text then true
      else if re_match numbered_item line_text then true
      else false
  end.

Definition block_has_content (h : heading) (b : block) : bool :=
  match block_lines b with
  | Some lines => existsb (line_has_content h) lines
  | None =>
      match block_type b with
      | Some 1 => true
      | _ => false
      end
  end.

(** The loop over the pages of [_has_content_after_heading]. *)
Fixpoint scan_pages (d : document) (h : heading) (page_nums : list Z) : exc bool :=
  match page_nums with
  | [] => Ok false
  | page_num :: rest =>
      page <- doc_getitem d page_num ;;
      if existsb (block_has_content h) page then Ok true
      else scan_pages d h rest
  end.

Definition _has_content_after_heading (d : document) (h : heading)
    (next_heading : option heading) : exc bool :=
  let start_page := h_page h in
  let end_page :=
    match next_heading with
    | Some nh => h_page nh
    | None => Z.min (start_page + 1) (doc_len d - 1)
    end in
  scan_pages d h (range start_page (end_page + 1)).

(** The inner loop over [j]; [later] is [headings[i+1:]]. *)
Fixpoint has_children_scan (h : heading) (later : list heading) : bool :=
  match later with
  | [] => false
  | hj :: later' =>
      if h_page hj >? h_page h + 1 then false
      else if level_digit (h_level hj) >? level_digit (h_level h) then true
      else has_children_scan h later'
  end.

(** A heading of the outline. *)
Record outline_entry : Type := OutlineEntry {
  o_level : level;
  o_text : str;
  o_page : Z
}.

(** [clean_heading]: the keys [confidence] and [bbox] left out, the page
    made 1-based. *)
Definition clean_heading (h : heading) : outline_entry :=
  OutlineEntry (h_level h) (h_text h) (h_page h + 1).

(** The loop over [i]; [headings] is [headings[i:]] and [result] what was
    appended so far. *)
Fixpoint filter_loop (d : document) (headings : list heading)
    (result : list outline_entry) : exc (list outline_entry) :=
  match headings with
  | [] => Ok result
  | h :: later =>
      let next_heading := hd_error later in
      let has_children := has_children_scan h later in
      has_content <- _has_content_after_heading d h next_heading ;;
      if has_children || has_content
      then filter_loop d later (result ++ [clean_heading h])
      else filter_loop d later result
  end.

Definition _filter_headings_with_subtext (d : document) (headings : list heading)
    : exc (list outline_entry) :=
  filter_loop d headings [].

(** ** Deduplication and order *)

Definition heading_key := (str * Z)%type.

Definition key_eqb (a b : heading_key) : bool :=
  str_eqb (fst a) (fst b) && (snd a =? snd b).

(** [(heading['text'], heading['page'])] *)
Definition dedup_key (h : heading) : heading_key := (h_text h, h_page h).

(** The loop of [_post_process_headings]: [(seen, unique_headings)]. *)
Definition dedup_step (st : list heading_key * list heading) (h : heading)
    : list heading_key * list heading :=
  let '(seen, unique_headings) := st in
  let key := dedup_key h in
  if negb (existsb (key_eqb key) seen)
  then (key :: seen, unique_headings ++ [h])
  else st.

(** [x.get('bbox', [0])[1] if x.get('bbox') else 0] *)
Definition sort_y (h : heading) : Q :=
  match h_bbox h with
  | Some b => y0 b
  | None => 0%Q
  end.

(** The order on the keys [(x['page'], y)]. *)
Definition sort_key_ltb (a b : heading) : bool :=
  if h_page a =? h_page b then Qltb (sort_y a) (sort_y b)
  else h_page a <? h_page b.

Definition _post_process_headings (headings : list heading) : list heading :=
  match headings with
  | [] => headings
  | _ :: _ =>
      let unique_headings := snd (fold_left dedup_step headings ([], [])) in
      py_sort sort_key_ltb unique_headings
  end.

(** ** The outline *)

(** [enumerate(l)], from [i]. *)
Fixpoint enumerate_from {A : Type} (i : Z) (l : list A) : list (Z * A) :=
  match l with
  | [] => []
  | x :: l' => (i, x) :: enumerate_from (i + 1) l'
  end.

Definition _extract_headings_from_text (d : document) (extracted_title : str)
    (common_font_size : Q) : exc (list outline_entry) :=
  let th := _calculate_size_thresholds common_font_size in
  let headings :=
    flat_map (fun '(page_num, page) =>
                _extract_page_headings extracted_title common_font_size
                                       page page_num th)
             (enumerate_from 0 (doc_pages d)) in
  let headings := _post_process_headings headings in
  _filter_headings_with_subtext d headings.

Definition _extract_outline_enhanced := _extract_headings_from_text.

(** ** [process_pdf] *)

(** What PyMuPDF keeps of an opened file: the document, under a handle that
    is open until [close()].  [len(doc)] is the page count and raises on a
    closed document; [Document] has [__len__] and no [__bool__], so the truth
    value of a document is that of its page count; [close()] raises on a
    closed document. *)
Record doc_handle : Type := DocHandle {
  handle_id : nat;
  handle_doc : document
}.

Record world : Type := World {
  files : str -> exc document;   (* what [fitz.open] finds at a path *)
  open_handles : list nat;
  next_handle : nat
}.

Definition fitz_open (w : world) (pdf_path : str) : world * exc doc_handle :=
  match files w pdf_path with
  | Raise e => (w, Raise e)
  | Ok d =>
      (World (files w) (next_handle w :: open_handles w) (S (next_handle w)),
       Ok (DocHandle (next_handle w) d))
  end.

Definition is_closed (w : world) (hd : doc_handle) : bool :=
  negb (existsb (Nat.eqb (handle_id hd)) (open_handles w)).

Definition handle_len (w : world) (hd : doc_handle) : exc Z :=
  if is_closed w hd then Raise ValueError else Ok (doc_len (handle_doc hd)).

(** [bool(doc)] *)
Definition handle_bool (w : world) (hd : doc_handle) : exc bool :=
  n <- handle_len w hd ;; Ok (negb (n =? 0)).

Definition handle_close (w : world) (hd : doc_handle) : world * exc unit :=
  if is_closed w hd then (w, Raise ValueError)
  else (World (files w)
              (filter (fun i => negb (Nat.eqb (handle_id hd) i)) (open_handles w))
              (next_handle w),
        Ok tt).

(** The fields of the extractor that the methods assign. *)
Record extractor : Type := Extractor {
  self_doc : option doc_handle;
  self_font_sizes : list Q;
  self_common_font_size : option Q;
  self_extracted_title : str
}.

(** [__init__] *)
Definition new_extractor : extractor := Extractor None [] None [].

Record result : Type := Result {
  title : str;
  outline : list outline_entry
}.

Definition ERROR_RESULT : result := Result (lit "Error") [].

(** The [try] block. *)
Definition process_pdf_try (self : extractor) (w : world) (pdf_path : str)
    : extractor * world * exc result :=
  match fitz_open w pdf_path with
  | (w, Raise e) => (self, w, Raise e)
  | (w, Ok hd) =>
      let self := Extractor (Some hd) (self_font_sizes self)
                            (self_common_font_size self)
                            (self_extracted_title self) in
      let d := handle_doc hd in
      let '(font_sizes, common) := _analyze_document_fonts d in
      let self := Extractor (self_doc self) font_sizes (Some common)
                            (self_extracted_title self) in
      let title := _extract_title_enhanced d common in
      let self := Extractor (self_doc self) (self_font_sizes self)
                            (self_common_font_size self)
                            (strip (lower title)) in
      match _extract_outline_enhanced d (self_extracted_title self) common with
      | Ok outline => (self, w, Ok (Result title outline))
      | Raise e => (self, w, Raise e)
      end
  end.

(** [except Exception] *)
Definition process_pdf_except (r : exc result) : exc result :=
  match r with
  | Ok res => Ok res
  | Raise _ => Ok ERROR_RESULT
  end.

(** The [finally] block: an exception raised here replaces the pending
    [return]. *)
Definition process_pdf_finally (self : extractor) (w : world) (r : exc result)
    : extractor * world * exc result :=
  match self_doc self with
  | None => (self, w, r)
  | Some hd =>
      match handle_bool w hd with
      | Raise e => (self, w, Raise e)
      | Ok false => (self, w, r)
      | Ok true =>
          match handle_close w hd with
          | (w, Raise e) => (self, w, Raise e)
          | (w, Ok _) => (self, w, r)
          end
      end
  end.

Definition process_pdf (self : extractor) (w : world) (pdf_path : str)
    : extractor * world * exc result :=
  let '(self, w, r) := process_pdf_try self w pdf_path in
  process_pdf_finally self w (process_pdf_except r).

(** ** Notions the statements use *)

(** [l1] is [l2] with some elements left out. *)
Inductive subseq {A : Type} : list A -> list A -> Prop :=
| subseq_nil : subseq [] []
| subseq_skip x l1 l2 : subseq l1 l2 -> subseq l1 (x :: l2)
| subseq_keep x l1 l2 : subseq l1 l2 -> subseq (x :: l1) (x :: l2).

(** The page of a heading is a page of the document. *)
Definition page_in (d : document) (h : heading) : Prop :=
  0 <= h_page h < doc_len d.

(** [has_children or has_content] for the heading [h] followed by [later],
    where the content scan does not raise. *)
Definition retained (d : document) (h : heading) (later : list heading) : bool :=
  has_children_scan h later
  || match _has_content_after_heading d h (hd_error later) with
     | Ok b => b
     | Raise _ => false
     end.

(** The headings that are retained, in their order. *)
Fixpoint retained_headings (d : document) (hs : list heading) : list heading :=
  match hs with
  | [] => []
  | h :: later =>
      if retained d h later then h :: retained_headings d later
      else retained_headings d later
  end.

(** The order of [_post_process_headings]: by page, then by vertical
    position, a heading without a bbox at position 0. *)
Definition key_le (a b : heading) : Prop :=
  h_page a < h_page b
  \/ (h_page a = h_page b /\ (sort_y a <= sort_y b)%Q).

(** The headings extracted from all pages, before post-processing. *)
Definition raw_headings (d : document) (extracted_title : str)
    (common_font_size : Q) : list heading :=
  flat_map (fun '(page_num, page) =>
              _extract_page_headings extracted_title common_font_size
                page page_num (_calculate_size_thresholds common_font_size))
           (enumerate_from 0 (doc_pages d)).

(** The first heading of a list with a given (text, page). *)
Definition first_with_key (k : heading_key) (hs : list heading) : option heading :=
  find (fun h => key_eqb (dedup_key h) k) hs.

(** What the loop over [headings] keeps true: [seen] holds the keys of
    [unique_headings], which has one heading for each key, the first one of
    the headings read so far. *)
Definition dedup_inv (done : list heading)
    (st : list heading_key * list heading) : Prop :=
  (forall k, In k (fst st) <-> In k (map dedup_key (snd st)))
  /\ NoDup (map dedup_key (snd st))
  /\ subseq (snd st) done
  /\ (forall k, first_with_key k (snd st) = first_with_key k done).

(** How many times a size occurs in a list. *)
Definition count_size (x : Q) (l : list Q) : Z :=
  Z.of_nat (List.length (filter (Qeq_bool x) l)).

(** A text of digits. *)
Definition all_digits (a : str) : Prop := Forall (fun c => is_digit c = true) a.

(** The text goes on with a dot and a digit. *)
Definition dot_digit (t : str) : Prop :=
  exists d rest, t = chr "." :: d :: rest /\ is_digit d = true.

(** The text goes on as the end of a numbering pattern asks: whitespace,
    or a dot and whitespace. *)
Definition dot_space (t : str) : Prop :=
  (exists c rest, t = c :: rest /\ is_space c = true)
  \/ (exists c rest, t = chr "." :: c :: rest /\ is_space c = true).

(** The last page the content scan of [h] reads. *)
Definition scan_end_page (d : document) (h : heading)
    (next_heading : option heading) : Z :=
  match next_heading with
  | Some nh => h_page nh
  | None => Z.min (h_page h + 1) (doc_len d - 1)
  end.

(** A block on one of the pages the content scan of [h] reads. *)
Definition scanned_block (d : document) (h : heading)
    (next_heading : option heading) (blk : block) : Prop :=
  exists n page,
    In n (range (h_page h) (scan_end_page d h next_heading + 1))
    /\ nth_error (doc_pages d) (Z.to_nat n) = Some page
    /\ In blk page.

(** A block that makes the scan answer [True]: a line that is not empty,
    is not skipped and is prose or a list item, or a block without lines
    whose type is 1. *)
Definition content_block (h : heading) (blk : block) : Prop :=
  match block_lines blk with
  | Some lines =>
      exists ln, In ln lines
        /\ joined_line_text ln <> []
        /\ line_skipped h (joined_line_text ln) = false
        /\ line_is_content (joined_line_text ln) = true
  | None => block_type blk = Some 1
  end.



(** ** Example documents *)

Definition text_span (t : str) (size : Q) (flags : Z) (y : Q) : span :=
  Span t size flags (Some (Bbox 0 y 100 (y + size))).

Definition text_block (lines : list line) : block := Block (Some lines) (Some 0).

(** A page with two headings and nothing else. *)
Definition doc_appendix : document :=
  Document [[text_block [[text_span (lit "Appendix") 24 16 10];
                         [text_span (lit "References") 24 16 50]]]] [].


Definition heading_references : heading :=
  Heading H1 (lit "References") 0 (6 # 10) (Some (Bbox 0 50 100 74)).




(** Two numbered lines, large enough for H1 by their size. *)
Definition line_data_2_3_1 : line_data :=
  LineData (lit "2.3.1 Foo") 30 16 (Some (Bbox 0 10 100 40)) (9 # 10).

Definition line_data_1_1 : line_data :=
  LineData (lit "1.1 Background") 30 16 (Some (Bbox 0 10 100 40)) (9 # 10).

(** The files [fitz.open] finds: one document at one path. *)
Definition single_file_world (path : str) (d : document) : world :=
  World (fun p => if str_eqb p path then Ok d else Raise FileDataError) [] 0.

(** A page whose only line is a bold "Abc"; no bookmarks. *)
Definition doc_abc : document :=
  Document [[text_block [[text_span (lit "Abc") 12 16 10]]]] [].

(** What a [Counter] of the list [l] is: each entry counts its key in [l]
    and stands where the key first occurs (the elements of [l] before the
    key belong to earlier entries), and every element of [l] has its
    entry. *)
Definition counter_ok (l : list Q) (c : counter) : Prop :=
  (forall c1 k n c2, c = c1 ++ (k, n) :: c2 ->
     n = count_size k l
     /\ exists pre post,
          l = pre ++ k :: post
          /\ forall y, In y pre ->
               exists k' n', In (k', n') c1 /\ Qeq_bool k' y = true)
  /\ (forall y, In y l -> exists k n, In (k, n) c /\ Qeq_bool k y = true).

(** Two sizes, twice each, the smaller one first. *)
Definition doc_tie : document :=
  Document [[text_block [[text_span (lit "ten") 10 0 10];
                         [text_span (lit "twelve") 12 0 30];
                         [text_span (lit "twelve again") 12 0 50];
                         [text_span (lit "ten again") 10 0 70]]]] [].

(** A bookmarked document whose page has a large bold line with a control
    character between two spaces, and two lines of prose. *)
Definition line_scope_notes : str := lit "Scope " ++ [1%N] ++ lit " Notes".

Definition doc_control : document :=
  Document
    [[text_block
        [[text_span line_scope_notes 24 16 10];
         [text_span (lit "This section says what the notes cover, and what they leave out.")
                    12 0 50];
         [text_span (lit "The notes are kept short; details are in the annexes, as usual.")
                    12 0 70]]]]
    [Toc 1 (lit "Annual Report") 1].

(** A document without pages. *)
Definition doc_no_pages : document := Document [] [].

(** The same with a heading that ends with a control character and is
    followed by a "Syllabus" line, which the merge rule appends to it. *)
Definition doc_syllabus : document :=
  Document
    [[text_block
        [[text_span (lit "Course " ++ [1%N]) 24 16 10];
         [text_span (lit "Syllabus") 24 16 40];
         [text_span (lit "This section says what the notes cover, and what they leave out.")
                    12 0 70];
         [text_span (lit "The notes are kept short; details are in the annexes, as usual.")
                    12 0 90];
         [text_span (lit "The course ends with a written test; see the last annex, too.")
                    12 0 110]]]]
    [Toc 1 (lit "Annual Report") 1].

(** What a heading extracted from page [page_num] carries. *)
Definition heading_wf (page_num : Z) (h : heading) : Prop :=
  h_page h = page_num
  /\ h_bbox h <> None
  /\ Qgtb (h_confidence h) (4 # 10) = true
  /\ (h_confidence h <= 9 # 10)%Q.

(** A line that is neither bold nor a heading pattern. *)
Definition plain_line (cfs : Q) (ln : line) : Prop :=
  Forall (fun sp => bold_flag (span_flags sp) = false) ln
  /\ forall ld, _analyze_line cfs ln = Some ld ->
                _matches_heading_patterns (ld_text ld) = false.

(** A text that neither starts nor ends with whitespace. *)
Definition stripped (s : str) : Prop :=
  match s with
  | [] => True
  | c :: _ => is_space c = false
  end
  /\ match rev s with
     | [] => True
     | c :: _ => is_space c = false
     end.

(** A line whose only span is blank. *)
Definition line_blank : line := [text_span (lit "   ") 12 0 10].

(** A bold numbered line of two spans. *)
Definition line_intro : line :=
  [text_span (lit " 1. ") 14 16 10; text_span (lit "Introduction ") 18 0 10].

(** A large line that is neither bold nor a heading pattern, and prose. *)
Definition doc_plain : document :=
  Document
    [[text_block
        [[text_span (lit "Results: 2024, at a glance") 30 0 10];
         [text_span (lit "The figures below are final; they replace the earlier draft.")
                    12 0 50]]]] [].

(** Whitespace is single plain spaces: every whitespace character is
    U+0020 and no two follow each other ([in_run]: the previous character
    was whitespace). *)
Fixpoint single_spaced (in_run : bool) (s : str) : bool :=
  match s with
  | [] => true
  | c :: s' =>
      if is_space c
      then N.eqb c 32%N && negb in_run && single_spaced true s'
      else single_spaced false s'
  end.

(** A text without surrogates whose control characters, if any, are
    whitespace (U+000B, U+000C, U+001C to U+001F). *)
Definition cleanable (s : str) : Prop :=
  Forall (fun c => (is_control c = true -> is_space c = true)
                   /\ is_surrogate c = false) s.

(** Two headings with the same sort key: the same page and the same
    vertical position. *)
Definition same_sort_key (k h : heading) : bool :=
  (h_page h =? h_page k) && Qeq_bool (sort_y h) (sort_y k).

(** Three headings of one page, the first two at the same height. *)
Definition headings_same_height : list heading :=
  [Heading H2 (lit "Right column") 0 (6 # 10) (Some (Bbox 300 40 500 60));
   Heading H2 (lit "Left column") 0 (6 # 10) (Some (Bbox 0 40 200 60));
   Heading H1 (lit "Top") 0 (6 # 10) (Some (Bbox 0 10 200 30))].

(** A H3 heading followed by a H1 heading, on a page without prose. *)
Definition heading_h3 : heading :=
  Heading H3 (lit "Appendix") 0 (6 # 10) (Some (Bbox 0 10 100 34)).

(** An ASCII letter, of either case. *)
Definition is_letter (c : char) : bool := is_upper c || is_lower c.

(** The level the sizes give. *)
Definition level_by_size (size : Q) (th : thresholds) : level :=
  if Qgeb size (h1 th) then H1 else if Qgeb size (h2 th) then H2 else H3.

Definition line_data_appendix : line_data :=
  LineData (lit "Appendix") 15 16 (Some (Bbox 0 10 100 25)) (6 # 10).

(** A pattern whose classes take a character and its lowercase alike. *)
Fixpoint case_blind (r : regex) : Prop :=
  match r with
  | Void => True
  | Eps => True
  | Cls p => forall c, p (to_lower c) = p c
  | Cat a b => case_blind a /\ case_blind b
  | Alt a b => case_blind a /\ case_blind b
  | Star a => case_blind a
  end.

Definition pattern_case_blind (p : pattern) : Prop :=
  match p with
  | Prefix r => case_blind r
  | Whole r => case_blind r
  end.

(** The order of the title candidates: larger sizes first and, for equal
    sizes, smaller vertical positions first (an infinite position last). *)
Definition y_pos_le (a b : option Q) : Prop :=
  match a, b with
  | Some a, Some b => (a <= b)%Q
  | _, None => True
  | None, Some _ => False
  end.

Definition title_key_le (a b : title_candidate) : Prop :=
  (tc_size b < tc_size a)%Q
  \/ ((tc_size a == tc_size b)%Q /\ y_pos_le (tc_y_pos a) (tc_y_pos b)).

(** A first page with a bold subtitle above a larger title. *)
Definition doc_two_titles : document :=
  Document
    [[text_block
        [[text_span (lit "A short guide") 14 16 10];
         [text_span (lit "Outline Extraction") 20 0 40];
         [text_span (lit "The guide explains, step by step, how the outline is built.")
                    12 0 80];
         [text_span (lit "Each step is described first; the examples come afterwards.")
                    12 0 100]]]] [].

(** A heading whose cleaned text is empty, on a page with an image. *)
Definition heading_empty_text : heading :=
  Heading H1 [] 0 (5 # 10) (Some (Bbox 0 10 100 34)).

Definition doc_image : document :=
  Document
    [[text_block
        [[text_span (lit "The figure shows the whole pipeline, from spans to outline.")
                    12 0 50]];
      Block None (Some 1)]] [].









(** [str.isascii]: every code point is below 128.  The classes of digits
    and letters, and the case mappings, are the ASCII ones here; on ASCII
    text they are those of Python. *)
Definition is_ascii (c : char) : bool := (c <? 128)%N.
Definition isascii (s : str) : bool := forallb is_ascii s.

(** A line whose spans hold ASCII text. *)
Definition ascii_line (ln : line) : Prop :=
  Forall (fun sp => isascii (span_text sp) = true) ln.

(** * Properties *)

(** ** The matcher decides the language of a pattern *)

Section ReCorrect.

Lemma lang_Void_inv w : lang Void w -> False.
Proof. inversion 1. Qed.

Lemma lang_Eps_inv w : lang Eps w -> w = [].
Proof. inversion 1; reflexivity. Qed.

Lemma lang_Cls_inv p w : lang (Cls p) w -> exists c, w = [c] /\ p c = true.
Proof. inversion 1; subst; eauto. Qed.

Lemma lang_Cat_inv a b w :
  lang (Cat a b) w -> exists u v, w = u ++ v /\ lang a u /\ lang b v.
Proof. inversion 1; subst; eauto. Qed.

Lemma lang_Alt_inv a b w : lang (Alt a b) w -> lang a w \/ lang b w.
Proof. inversion 1; subst; auto. Qed.

Lemma nullable_lang r : nullable r = true <-> lang r [].
Proof.
  induction r; simpl.
  - split; [discriminate | intros H; destruct (lang_Void_inv H)].
  - split; [constructor | reflexivity].
  - split; [discriminate | intros H].
    apply lang_Cls_inv in H. destruct H as (c & E & _). discriminate.
  - rewrite andb_true_iff, IHr1, IHr2. split.
    + intros [Ha Hb]. exact (LCat Ha Hb).
    + intros H. apply lang_Cat_inv in H. destruct H as (u & v & E & Ha & Hb).
      symmetry in E. apply app_eq_nil in E. destruct E; subst; auto.
  - rewrite orb_true_iff, IHr1, IHr2. split.
    + intros [H | H]; [apply LAltL | apply LAltR]; assumption.
    + apply lang_Alt_inv.
  - split; [constructor | reflexivity].
Qed.

Lemma mkCat_lang a b w : lang (mkCat a b) w <-> lang (Cat a b) w.
Proof.
  split.
  - destruct a, b; simpl; intros H; try assumption;
      try (destruct (lang_Void_inv H));
      try (change w with ([] ++ w); apply LCat; [constructor | assumption]).
  - intros H. apply lang_Cat_inv in H. destruct H as (u & v & E & Ha & Hb). subst.
    destruct a, b; simpl;
      try (destruct (lang_Void_inv Ha)); try (destruct (lang_Void_inv Hb));
      try (apply lang_Eps_inv in Ha; subst; simpl; assumption);
      try (apply LCat; assumption).
Qed.

Lemma mkAlt_lang a b w : lang (mkAlt a b) w <-> lang (Alt a b) w.
Proof.
  split.
  - destruct a, b; simpl; intros H; try assumption;
      try (apply LAltR; assumption); try (apply LAltL; assumption).
  - intros H. apply lang_Alt_inv in H.
    destruct H as [H | H]; destruct a, b; simpl;
      try (destruct (lang_Void_inv H)); try assumption;
      try (apply LAltL; assumption); try (apply LAltR; assumption).
Qed.

(** A word of [Star a] that starts with [c] starts with a word of [a] that
    starts with [c]. *)
Lemma lang_Star_cons a s :
  lang (Star a) s -> forall c w, s = c :: w ->
  exists u v, w = u ++ v /\ lang a (c :: u) /\ lang (Star a) v.
Proof.
  intros H. remember (Star a) as r eqn:Er.
  induction H; try discriminate; intros c0 w E.
  injection Er as ->.
  destruct u as [|x u].
  - simpl in E. apply (IHlang2 eq_refl _ _ E).
  - simpl in E. injection E as -> <-. exists u, v. auto.
Qed.

Lemma der_lang c r : forall w, lang (der c r) w <-> lang r (c :: w).
Proof.
  induction r; intros w; simpl.
  - split; intros H; destruct (lang_Void_inv H).
  - split; intros H; [destruct (lang_Void_inv H) | apply lang_Eps_inv in H; discriminate].
  - destruct (p c) eqn:Ep; split; intros H.
    + apply lang_Eps_inv in H. subst. constructor. assumption.
    + apply lang_Cls_inv in H. destruct H as (x & E & _).
      injection E as _ ->. constructor.
    + destruct (lang_Void_inv H).
    + apply lang_Cls_inv in H. destruct H as (x & E & Hx).
      injection E as <- _. congruence.
  - assert (Hcat : forall w, lang (mkCat (der c r1) r2) w ->
                             lang (Cat r1 r2) (c :: w)).
    { intros w0 H. apply mkCat_lang in H. apply lang_Cat_inv in H.
      destruct H as (u & v & -> & Hu & Hv). apply IHr1 in Hu.
      change (c :: u ++ v) with ((c :: u) ++ v). apply LCat; assumption. }
    assert (Hinv : lang (Cat r1 r2) (c :: w) ->
                   lang (mkCat (der c r1) r2) w
                   \/ (nullable r1 = true /\ lang (der c r2) w)).
    { intros H. apply lang_Cat_inv in H. destruct H as (u & v & E & Hu & Hv).
      destruct u as [|x u]; simpl in E.
      - right. subst v. split; [apply nullable_lang; assumption | apply IHr2; assumption].
      - injection E as <- ->. left. apply mkCat_lang. apply LCat; [apply IHr1|]; assumption. }
    destruct (nullable r1) eqn:En; split; intros H.
    + apply mkAlt_lang in H. apply lang_Alt_inv in H. destruct H as [H | H].
      * apply Hcat; assumption.
      * apply IHr2 in H. change (c :: w) with ([] ++ c :: w).
        apply LCat; [apply nullable_lang|]; assumption.
    + apply mkAlt_lang. destruct (Hinv H) as [H' | [_ H']];
        [apply LAltL | apply LAltR]; assumption.
    + apply Hcat; assumption.
    + destruct (Hinv H) as [H' | [E _]]; [assumption | discriminate].
  - split; intros H.
    + apply mkAlt_lang in H. apply lang_Alt_inv in H.
      destruct H as [H | H]; [apply LAltL, IHr1 | apply LAltR, IHr2]; assumption.
    + apply mkAlt_lang. apply lang_Alt_inv in H.
      destruct H as [H | H]; [apply LAltL, IHr1 | apply LAltR, IHr2]; assumption.
  - split; intros H.
    + apply mkCat_lang in H. apply lang_Cat_inv in H.
      destruct H as (u & v & -> & Hu & Hv). apply IHr in Hu.
      change (c :: u ++ v) with ((c :: u) ++ v). apply LStarS; assumption.
    + destruct (lang_Star_cons H eq_refl) as (u & v & -> & Hu & Hv).
      apply mkCat_lang. apply LCat; [apply IHr|]; assumption.
Qed.

(** [run] finds a split of the text into a word of the pattern and a rest
    that [final] accepts. *)
Lemma run_spec final : forall s r,
  run final r s = true <->
  exists u v, s = u ++ v /\ lang r u /\ final v = true.
Proof.
  induction s as [|c s IH]; intros r; simpl.
  - rewrite orb_false_r, andb_true_iff, nullable_lang. split.
    + intros [Hn Hf]. exists [], []. auto.
    + intros (u & v & E & Hu & Hv). symmetry in E. apply app_eq_nil in E.
      destruct E; subst; auto.
  - rewrite orb_true_iff, andb_true_iff, nullable_lang, IH. split.
    + intros [[Hn Hf] | (u & v & -> & Hu & Hv)].
      * exists [], (c :: s). auto.
      * exists (c :: u), v. split; [reflexivity|]. split; [apply der_lang|]; assumption.
    + intros (u & v & E & Hu & Hv). destruct u as [|x u]; simpl in E.
      * left. subst v. auto.
      * injection E as <- ->. right. exists u, v.
        split; [reflexivity|]. split; [apply der_lang|]; assumption.
Qed.

(** [re.match] succeeds when a prefix of the text is a word of the
    pattern. *)
Lemma re_match_spec r s :
  re_match r s = true <-> exists u v, s = u ++ v /\ lang r u.
Proof.
  unfold re_match. rewrite run_spec. split.
  - intros (u & v & E & H & _). eauto.
  - intros (u & v & E & H). eauto.
Qed.

End ReCorrect.

(** ** Numbering patterns and heading levels *)

Section Numbering.

Lemma digit_not_space c : is_digit c = true -> is_space c = false.
Proof.
  unfold is_digit, is_space, in_range. intros H.
  apply andb_true_iff in H. destruct H as [H1 H2].
  apply N.leb_le in H1. apply N.leb_le in H2.
  repeat rewrite orb_false_iff. repeat split;
    try (apply andb_false_iff; (left; apply N.leb_gt; lia) || (right; apply N.leb_gt; lia));
    try (apply N.eqb_neq; lia).
Qed.

Lemma digit_not_dot c : is_digit c = true -> c <> chr ".".
Proof.
  unfold is_digit, in_range. intros H E. subst c. discriminate H.
Qed.

Lemma lang_Star_Cls p w :
  lang (Star (Cls p)) w -> Forall (fun c => p c = true) w.
Proof.
  intros H. remember (Star (Cls p)) as r eqn:Er.
  induction H; try discriminate.
  - constructor.
  - injection Er as ->. apply lang_Cls_inv in H. destruct H as (c & -> & Hc).
    simpl. constructor; auto.
Qed.

Lemma lang_Plus_Cls p w :
  lang (Plus (Cls p)) w ->
  exists c w', w = c :: w' /\ p c = true /\ Forall (fun c => p c = true) w'.
Proof.
  intros H. apply lang_Cat_inv in H. destruct H as (u & v & -> & Hu & Hv).
  apply lang_Cls_inv in Hu. destruct Hu as (c & -> & Hc).
  apply lang_Star_Cls in Hv. exists c, v. auto.
Qed.

Lemma lang_digits_then R w :
  lang (Cat (Plus digit) R) w ->
  exists a r, w = a ++ r /\ a <> [] /\ all_digits a /\ lang R r.
Proof.
  intros H. apply lang_Cat_inv in H. destruct H as (u & v & -> & Hu & Hv).
  apply lang_Plus_Cls in Hu. destruct Hu as (c & u' & -> & Hc & Hu').
  exists (c :: u'), v. repeat split; try assumption; try discriminate.
  constructor; assumption.
Qed.

Lemma lang_dot_then R w :
  lang (Cat dot R) w -> exists r, w = chr "." :: r /\ lang R r.
Proof.
  intros H. apply lang_Cat_inv in H. destruct H as (u & v & -> & Hu & Hv).
  apply lang_Cls_inv in Hu. destruct Hu as (c & -> & Hc).
  unfold char_eqb in Hc. apply N.eqb_eq in Hc. subst c. exists v. auto.
Qed.

Lemma lang_numbering_end w v :
  lang (Cat (Opt dot) (Plus space)) w -> dot_space (w ++ v).
Proof.
  intros H. apply lang_Cat_inv in H. destruct H as (u & x & -> & Hu & Hx).
  apply lang_Plus_Cls in Hx. destruct Hx as (c & x' & -> & Hc & _).
  apply lang_Alt_inv in Hu. destruct Hu as [Hu | Hu].
  - apply lang_Cls_inv in Hu. destruct Hu as (e & -> & He).
    unfold char_eqb in He. apply N.eqb_eq in He. subst e.
    right. exists c, (x' ++ v). auto.
  - apply lang_Eps_inv in Hu. subst u. left. exists c, (x' ++ v). auto.
Qed.

(** Two ways to cut the digits at the start of a text: when the second cut
    is at the end of the digits, the first leaves a digit or is the same
    cut. *)
Lemma digits_cut : forall a a' x x' c,
  all_digits a -> all_digits a' -> is_digit c = false ->
  a ++ x = a' ++ c :: x' ->
  (exists d rest, x = d :: rest /\ is_digit d = true) \/ x = c :: x'.
Proof.
  induction a as [|d a IH]; intros a' x x' c Ha Ha' Hc E; simpl in E.
  - destruct a' as [|d' a']; simpl in E.
    + right. assumption.
    + left. inversion Ha'; subst. eauto.
  - destruct a' as [|d' a']; simpl in E.
    + injection E as -> _. inversion Ha; subst. congruence.
    + injection E as _ E. inversion Ha; inversion Ha'; subst.
      eapply IH; eauto.
Qed.

Arguments digits_cut : clear implicits.

Lemma dot_not_digit : is_digit (chr ".") = false.
Proof. reflexivity. Qed.

Lemma dot_space_not_digit t :
  dot_space t -> ~ (exists d rest, t = d :: rest /\ is_digit d = true).
Proof.
  intros [(c & r & -> & Hc) | (c & r & -> & Hc)] (d & rest & E & Hd);
    injection E as E _; subst d.
  - rewrite (digit_not_space _ Hd) in Hc. discriminate.
  - discriminate Hd.
Qed.

Lemma dot_space_not_dot_digit t : dot_space t -> dot_digit t -> False.
Proof.
  intros [(c & r & -> & Hc) | (c & r & -> & Hc)] (d & rest & E & Hd).
  - injection E as E _. subst c. discriminate Hc.
  - injection E as E _. subst c. rewrite (digit_not_space _ Hd) in Hc. discriminate.
Qed.

(** A text that starts with digits, a dot and a digit does not match
    the one-numeral pattern. *)
Lemma numbering_1_no_match a t :
  all_digits a -> dot_digit t -> re_match numbering_1 (a ++ t) = false.
Proof.
  intros Ha Ht. destruct (re_match numbering_1 (a ++ t)) eqn:E; [|reflexivity].
  exfalso. apply re_match_spec in E. destruct E as (u & v & E & Hu).
  apply lang_digits_then in Hu. destruct Hu as (b & r & -> & _ & Hb & Hr).
  apply (lang_numbering_end v) in Hr.
  destruct Ht as (d & rest & -> & Hd).
  rewrite <- app_assoc in E. symmetry in E.
  destruct (digits_cut _ _ _ _ _ Hb Ha dot_not_digit E) as [H | H].
  - exact (dot_space_not_digit Hr H).
  - rewrite H in Hr. apply (dot_space_not_dot_digit Hr). exists d, rest. auto.
Qed.

(** A text that starts with digits, a dot, digits, a dot and a digit does
    not match the two-numeral pattern. *)
Lemma numbering_2_no_match a a2 t :
  all_digits a -> all_digits a2 -> dot_digit t ->
  re_match numbering_2 (a ++ chr "." :: a2 ++ t) = false.
Proof.
  intros Ha Ha2 Ht.
  destruct (re_match numbering_2 (a ++ chr "." :: a2 ++ t)) eqn:E; [|reflexivity].
  exfalso. apply re_match_spec in E. destruct E as (u & v & E & Hu).
  apply lang_digits_then in Hu. destruct Hu as (b & r & -> & _ & Hb & Hr).
  apply lang_dot_then in Hr. destruct Hr as (r1 & -> & Hr).
  apply lang_digits_then in Hr. destruct Hr as (b2 & r2 & -> & _ & Hb2 & Hr).
  apply (lang_numbering_end v) in Hr.
  rewrite <- app_assoc in E. simpl in E. symmetry in E.
  destruct (digits_cut _ _ _ _ _ Hb Ha dot_not_digit E) as [(d & rest & Ed & Hd) | H].
  - injection Ed as <- _. discriminate Hd.
  - injection H as H. rewrite <- app_assoc in H.
    destruct Ht as (d & rest & -> & Hd).
    destruct (digits_cut _ _ _ _ _ Hb2 Ha2 dot_not_digit H) as [H' | H'].
    + exact (dot_space_not_digit Hr H').
    + rewrite H' in Hr. apply (dot_space_not_dot_digit Hr). exists d, rest. auto.
Qed.

(** The shape of a text that matches the two-numeral pattern. *)
Lemma numbering_2_shape s :
  re_match numbering_2 s = true ->
  exists a t, s = a ++ t /\ all_digits a /\ dot_digit t.
Proof.
  intros E. apply re_match_spec in E. destruct E as (u & v & -> & Hu).
  apply lang_digits_then in Hu. destruct Hu as (a & r & -> & _ & Ha & Hr).
  apply lang_dot_then in Hr. destruct Hr as (r1 & -> & Hr).
  apply lang_digits_then in Hr. destruct Hr as (a2 & r2 & -> & Hne & Ha2 & Hr).
  destruct a2 as [|d a2]; [congruence|]. inversion Ha2; subst.
  exists a, (chr "." :: d :: (a2 ++ r2) ++ v). split.
  - repeat (simpl; rewrite <- ?app_assoc). reflexivity.
  - split; [assumption|]. exists d, ((a2 ++ r2) ++ v). auto.
Qed.

(** The shape of a text that matches the three-numeral pattern. *)
Lemma numbering_3_shape s :
  re_match numbering_3 s = true ->
  exists a a2 t, s = a ++ chr "." :: a2 ++ t /\ all_digits a /\ a2 <> []
                 /\ all_digits a2 /\ dot_digit t.
Proof.
  intros E. apply re_match_spec in E. destruct E as (u & v & -> & Hu).
  apply lang_digits_then in Hu. destruct Hu as (a & r & -> & _ & Ha & Hr).
  apply lang_dot_then in Hr. destruct Hr as (r1 & -> & Hr).
  apply lang_digits_then in Hr. destruct Hr as (a2 & r2 & -> & Hne & Ha2 & Hr).
  apply lang_dot_then in Hr. destruct Hr as (r3 & -> & Hr).
  apply lang_digits_then in Hr. destruct Hr as (a3 & r4 & -> & Hne3 & Ha3 & Hr).
  destruct a3 as [|d a3]; [congruence|]. inversion Ha3; subst.
  exists a, a2, (chr "." :: d :: (a3 ++ r4) ++ v). split.
  - repeat (simpl; rewrite <- ?app_assoc). reflexivity.
  - repeat split; try assumption. exists d, ((a3 ++ r4) ++ v). auto.
Qed.

(** C1. The level of a heading follows the depth of its numbering, whatever
    the size of the line and whatever the thresholds: a text that starts
    with a three-part numbering (as "2.3.1 Foo") gets H3, and a text that
    starts with a two-part numbering (as "1.1 Background") gets H2, though
    the one-numeral pattern is tried first. *)
Theorem determine_heading_level_by_numbering (ld : line_data) (th : thresholds) :
  (re_match numbering_3 (strip (ld_text ld)) = true ->
   _determine_heading_level ld th = H3)
  /\ (re_match numbering_2 (strip (ld_text ld)) = true ->
      _determine_heading_level ld th = H2).
Proof.
  unfold _determine_heading_level. split; intros E.
  - destruct (numbering_3_shape _ E) as (a & a2 & t & Es & Ha & Hne & Ha2 & Ht).
    assert (E1 : re_match numbering_1 (strip (ld_text ld)) = false).
    { rewrite Es. apply numbering_1_no_match; [assumption|].
      destruct a2 as [|d a2]; [congruence|]. inversion Ha2; subst.
      exists d, (a2 ++ t). auto. }
    assert (E2 : re_match numbering_2 (strip (ld_text ld)) = false).
    { rewrite Es. apply numbering_2_no_match; assumption. }
    rewrite E1, E2, E. reflexivity.
  - destruct (numbering_2_shape _ E) as (a & t & Es & Ha & Ht).
    assert (E1 : re_match numbering_1 (strip (ld_text ld)) = false).
    { rewrite Es. apply numbering_1_no_match; assumption. }
    rewrite E1, E. reflexivity.
Qed.

End Numbering.

Unset Implicit Arguments.

(** ** Equality tests *)

Lemma str_eqb_eq (a b : str) : str_eqb a b = true <-> a = b.
Proof.
  revert b. induction a as [|x a IH]; intros [|y b]; simpl;
    try (split; [discriminate | discriminate]); try (split; reflexivity).
  rewrite andb_true_iff. unfold char_eqb. rewrite N.eqb_eq, IH. split.
  - intros [-> ->]. reflexivity.
  - intros E. injection E as -> ->. auto.
Qed.

Lemma key_eqb_eq (a b : heading_key) : key_eqb a b = true <-> a = b.
Proof.
  destruct a as [t p], b as [t' p']. unfold key_eqb. simpl.
  rewrite andb_true_iff, str_eqb_eq, Z.eqb_eq. split.
  - intros [-> ->]. reflexivity.
  - intros E. injection E as -> ->. auto.
Qed.

(** ** Subsequences *)

Section Subseq.

Variable A : Type.

Lemma subseq_refl (l : list A) : subseq l l.
Proof. induction l; constructor; assumption. Qed.

Lemma subseq_In (l1 l2 : list A) x : subseq l1 l2 -> In x l1 -> In x l2.
Proof.
  induction 1; simpl; intros Hx; auto.
  destruct Hx; auto.
Qed.

Lemma subseq_Forall (P : A -> Prop) (l1 l2 : list A) :
  subseq l1 l2 -> Forall P l2 -> Forall P l1.
Proof.
  induction 1; intros HF; auto; inversion HF; subst; auto.
Qed.

Lemma subseq_StronglySorted (R : A -> A -> Prop) (l1 l2 : list A) :
  subseq l1 l2 -> StronglySorted R l2 -> StronglySorted R l1.
Proof.
  induction 1; intros HS; auto; inversion HS; subst; auto.
  constructor; auto. eapply subseq_Forall; eauto.
Qed.

Lemma subseq_NoDup_map (B : Type) (f : A -> B) (l1 l2 : list A) :
  subseq l1 l2 -> NoDup (map f l2) -> NoDup (map f l1).
Proof.
  induction 1; simpl; intros HN; auto;
    inversion HN as [|? ? Hnin Hnd]; subst; auto.
  constructor; auto. intros Hin. apply Hnin.
  apply in_map_iff in Hin. destruct Hin as (y & E & Hy).
  apply in_map_iff. exists y. split; [assumption|].
  eapply subseq_In; eauto.
Qed.

End Subseq.

(** ** The content-presence filter returns *)

Lemma range_In (a b n : Z) : In n (range a b) -> a <= n < b.
Proof.
  unfold range. intros H. apply in_map_iff in H. destruct H as (i & <- & Hi).
  apply in_seq in Hi. lia.
Qed.

Lemma doc_getitem_Ok (d : document) (n : Z) :
  0 <= n < doc_len d ->
  exists p, doc_getitem d n = Ok p /\ nth_error (doc_pages d) (Z.to_nat n) = Some p.
Proof.
  intros Hn. unfold doc_getitem.
  replace (n <? 0) with false by (symmetry; apply Z.ltb_ge; lia).
  replace (doc_len d <=? n) with false by (symmetry; apply Z.leb_gt; lia).
  simpl. destruct (nth_error (doc_pages d) (Z.to_nat n)) as [p|] eqn:E.
  - eauto.
  - apply nth_error_None in E. unfold doc_len in Hn. lia.
Qed.

Lemma scan_pages_total (d : document) (h : heading) (nums : list Z) :
  (forall n, In n nums -> 0 <= n < doc_len d) ->
  exists b, scan_pages d h nums = Ok b.
Proof.
  induction nums as [|n nums IH]; simpl; intros Hin; [eauto|].
  destruct (doc_getitem_Ok d n) as (p & -> & _); [auto|]. simpl.
  destruct (existsb (block_has_content h) p); eauto.
Qed.

Lemma has_content_total (d : document) (h : heading) (next : option heading) :
  page_in d h ->
  match next with Some nh => page_in d nh | None => True end ->
  exists b, _has_content_after_heading d h next = Ok b.
Proof.
  unfold page_in, _has_content_after_heading. intros Hh Hn.
  apply scan_pages_total. intros n Hin. apply range_In in Hin.
  destruct next as [nh|]; lia.
Qed.

Lemma retained_headings_subseq (d : document) (hs : list heading) :
  subseq (retained_headings d hs) hs.
Proof.
  induction hs as [|h hs IH]; simpl; [constructor|].
  destruct (retained d h hs); constructor; assumption.
Qed.

(** The loop of the filter appends the retained headings, cleaned, and
    raises nothing when every heading is on a page of the document. *)
Lemma filter_loop_spec (d : document) : forall hs acc,
  Forall (page_in d) hs ->
  filter_loop d hs acc = Ok (acc ++ map clean_heading (retained_headings d hs)).
Proof.
  induction hs as [|h later IH]; intros acc HF; simpl.
  - rewrite app_nil_r. reflexivity.
  - inversion HF as [|? ? Hh Hl]; subst.
    destruct (has_content_total d h (hd_error later)) as (b & Eb); [assumption| |].
    { destruct later; simpl; [exact I|]. inversion Hl; assumption. }
    unfold retained. rewrite Eb. simpl.
    destruct (has_children_scan h later || b); rewrite IH by assumption.
    + rewrite <- app_assoc. reflexivity.
    + reflexivity.
Qed.

Lemma filter_headings_spec (d : document) (hs : list heading) :
  Forall (page_in d) hs ->
  _filter_headings_with_subtext d hs
  = Ok (map clean_heading (retained_headings d hs)).
Proof. intros HF. unfold _filter_headings_with_subtext. apply filter_loop_spec. assumption. Qed.

(** ** The headings of a page carry its number *)

Lemma fold_left_invariant {A B : Type} (P : A -> Prop) (f : A -> B -> A)
    (l : list B) (a : A) :
  P a -> (forall a b, P a -> P (f a b)) -> P (fold_left f l a).
Proof.
  revert a. induction l as [|b l IH]; simpl; intros a Ha Hf; auto.
Qed.

Lemma append_text_at_Forall (P : heading -> Prop) (i : nat) (more : str)
    (hs : list heading) :
  (forall lv t t' p c b, P (Heading lv t p c b) -> P (Heading lv t' p c b)) ->
  Forall P hs -> Forall P (append_text_at i more hs).
Proof.
  intros HP. revert i. induction hs as [|h hs IH]; intros i HF; simpl.
  - destruct i; constructor.
  - inversion HF as [|? ? Hh Hhs]; subst. destruct i.
    + constructor; [|assumption]. destruct h; simpl. eapply HP; eassumption.
    + constructor; auto.
Qed.

Lemma page_line_step_pages title cfs page_num th st ln :
  Forall (fun h => h_page h = page_num) (fst st) ->
  Forall (fun h => h_page h = page_num)
         (fst (page_line_step title cfs page_num th st ln)).
Proof.
  destruct st as [headings prev]. intros HF. unfold page_line_step.
  destruct (_analyze_line cfs ln) as [ld|]; [|exact HF].
  destruct (existsb (str_eqb (strip (lower (ld_text ld)))) metadata_words
            && negb (page_num =? 0)); [exact HF|].
  destruct (str_eqb (strip (lower (ld_text ld))) title); [exact HF|].
  destruct (_is_heading_candidate ld th); [|exact HF].
  assert (Hemit : Forall (fun h => h_page h = page_num)
            (headings ++ [Heading (_determine_heading_level ld th)
                            (_clean_text (ld_text ld)) page_num
                            (ld_confidence ld) (ld_bbox ld)])).
  { apply Forall_app. split; [exact HF|]. constructor; [reflexivity|constructor]. }
  destruct prev as [i|]; [|exact Hemit].
  destruct (str_eqb (strip (lower (ld_text ld))) (lit "syllabus"));
    [|exact Hemit].
  apply append_text_at_Forall; [|exact HF]. intros; assumption.
Qed.

Lemma extract_page_headings_pages title cfs blocks page_num th :
  Forall (fun h => h_page h = page_num)
         (_extract_page_headings title cfs blocks page_num th).
Proof.
  unfold _extract_page_headings.
  apply (fold_left_invariant
           (fun st => Forall (fun h => h_page h = page_num) (fst st))).
  - constructor.
  - intros st b Hst. unfold page_block_step.
    destruct (block_lines b) as [lines|]; [|assumption].
    apply (fold_left_invariant
             (fun st => Forall (fun h => h_page h = page_num) (fst st)));
      [assumption|].
    intros st' ln Hst'. apply page_line_step_pages. assumption.
Qed.

Lemma enumerate_from_In {A : Type} (l : list A) : forall i n x,
  In (n, x) (enumerate_from i l) -> i <= n < i + Z.of_nat (List.length l).
Proof.
  induction l as [|y l IH]; simpl; intros i n x H; [contradiction|].
  destruct H as [E | H].
  - injection E as <- _. lia.
  - apply IH in H. lia.
Qed.

(** Every heading extracted from the pages is on a page of the document,
    numbered from 0. *)
Lemma raw_headings_pages (d : document) (title : str) (cfs : Q) :
  Forall (page_in d) (raw_headings d title cfs).
Proof.
  unfold raw_headings. apply Forall_forall. intros h Hh.
  apply in_flat_map in Hh. destruct Hh as ([n p] & Hnp & Hh).
  apply enumerate_from_In in Hnp.
  pose proof (extract_page_headings_pages title cfs p n
                (_calculate_size_thresholds cfs)) as HF.
  rewrite Forall_forall in HF. apply HF in Hh.
  unfold page_in, doc_len. lia.
Qed.

(** ** The sort *)

Section SortProps.

Variable A : Type.
Variable ltb : A -> A -> bool.
Variable le : A -> A -> Prop.
Hypothesis ltb_true : forall a b, ltb a b = true -> le a b.
Hypothesis ltb_false : forall a b, ltb a b = false -> le b a.
Hypothesis le_trans : forall a b c, le a b -> le b c -> le a c.

Lemma insert_sorted_perm (x : A) (l : list A) :
  Permutation (insert_sorted ltb x l) (x :: l).
Proof.
  induction l as [|y l IH]; simpl; [reflexivity|].
  destruct (ltb y x); [|reflexivity].
  rewrite IH. apply perm_swap.
Qed.

Lemma py_sort_perm (l : list A) : Permutation (py_sort ltb l) l.
Proof.
  induction l as [|x l IH]; simpl; [reflexivity|].
  rewrite insert_sorted_perm. constructor. assumption.
Qed.

Lemma insert_sorted_sorted (x : A) (l : list A) :
  StronglySorted le l -> StronglySorted le (insert_sorted ltb x l).
Proof.
  induction l as [|y l IH]; simpl; intros HS.
  - constructor; constructor.
  - inversion HS as [|? ? HSl Hy]; subst.
    destruct (ltb y x) eqn:E.
    + constructor; [auto|].
      apply (Permutation_Forall (Permutation_sym (insert_sorted_perm x l))).
      constructor; [apply ltb_true; assumption | assumption].
    + constructor; [assumption|].
      pose proof (ltb_false _ _ E) as Hxy.
      constructor; [assumption|].
      eapply Forall_impl; [|exact Hy]. intros z Hz. eapply le_trans; eauto.
Qed.

Lemma py_sort_sorted (l : list A) : StronglySorted le (py_sort ltb l).
Proof.
  induction l as [|x l IH]; simpl; [constructor|].
  apply insert_sorted_sorted. assumption.
Qed.

End SortProps.

Lemma Qltb_true (a b : Q) : Qltb a b = true -> (a < b)%Q.
Proof.
  unfold Qltb. intros H. apply negb_true_iff in H.
  apply Qnot_le_lt. intros Hle. apply Qle_bool_iff in Hle. congruence.
Qed.

Lemma Qltb_false (a b : Q) : Qltb a b = false -> (b <= a)%Q.
Proof.
  unfold Qltb. intros H. apply negb_false_iff in H.
  apply Qle_bool_iff. assumption.
Qed.

Lemma sort_key_ltb_true (a b : heading) : sort_key_ltb a b = true -> key_le a b.
Proof.
  unfold sort_key_ltb, key_le. destruct (h_page a =? h_page b) eqn:E; intros H.
  - apply Z.eqb_eq in E. right. split; [assumption|].
    apply Qlt_le_weak, Qltb_true. assumption.
  - left. apply Z.ltb_lt. assumption.
Qed.

Lemma sort_key_ltb_false (a b : heading) : sort_key_ltb a b = false -> key_le b a.
Proof.
  unfold sort_key_ltb, key_le. destruct (h_page a =? h_page b) eqn:E; intros H.
  - apply Z.eqb_eq in E. right. split; [auto|]. apply Qltb_false. assumption.
  - left. apply Z.eqb_neq in E. apply Z.ltb_ge in H. lia.
Qed.

Lemma key_le_trans (a b c : heading) : key_le a b -> key_le b c -> key_le a c.
Proof.
  unfold key_le. intros [H1 | [E1 L1]] [H2 | [E2 L2]].
  - left. lia.
  - left. lia.
  - left. lia.
  - right. split; [lia|]. eapply Qle_trans; eauto.
Qed.

(** ** The deduplication *)

Lemma subseq_app_tail {A : Type} (l1 l2 : list A) (x : A) :
  subseq l1 l2 -> subseq (l1 ++ [x]) (l2 ++ [x]).
Proof.
  induction 1; simpl.
  - apply subseq_keep, subseq_nil.
  - apply subseq_skip. assumption.
  - apply subseq_keep. assumption.
Qed.

Lemma subseq_skip_tail {A : Type} (l1 l2 : list A) (x : A) :
  subseq l1 l2 -> subseq l1 (l2 ++ [x]).
Proof.
  induction 1; simpl.
  - apply subseq_skip, subseq_nil.
  - apply subseq_skip. assumption.
  - apply subseq_keep. assumption.
Qed.

Lemma existsb_key_In (k : heading_key) (seen : list heading_key) :
  existsb (key_eqb k) seen = true <-> In k seen.
Proof.
  rewrite existsb_exists. split.
  - intros (k' & Hin & E). apply key_eqb_eq in E. subst. assumption.
  - intros Hin. exists k. split; [assumption | apply key_eqb_eq; reflexivity].
Qed.

Lemma first_with_key_app (k : heading_key) (l : list heading) (h : heading) :
  first_with_key k (l ++ [h])
  = match first_with_key k l with
    | Some x => Some x
    | None => if key_eqb (dedup_key h) k then Some h else None
    end.
Proof.
  unfold first_with_key. induction l as [|y l IH]; simpl; [reflexivity|].
  destruct (key_eqb (dedup_key y) k); [reflexivity | assumption].
Qed.

Lemma first_with_key_None (k : heading_key) (l : list heading) :
  first_with_key k l = None <-> ~ In k (map dedup_key l).
Proof.
  unfold first_with_key. split.
  - intros H Hin. apply in_map_iff in Hin. destruct Hin as (h & E & Hh).
    pose proof (find_none _ _ H h Hh) as Hn. simpl in Hn.
    rewrite E in Hn. rewrite (proj2 (key_eqb_eq k k) eq_refl) in Hn. discriminate.
  - intros Hn. destruct (find _ l) as [h|] eqn:E; [|reflexivity].
    apply find_some in E. destruct E as [Hh E]. apply key_eqb_eq in E.
    exfalso. apply Hn. apply in_map_iff. exists h. auto.
Qed.

Lemma dedup_step_inv (done : list heading) st (h : heading) :
  dedup_inv done st -> dedup_inv (done ++ [h]) (dedup_step st h).
Proof.
  destruct st as [seen uniq]. unfold dedup_inv, dedup_step. simpl.
  intros (Hseen & Hnd & Hsub & Hfirst).
  destruct (existsb (key_eqb (dedup_key h)) seen) eqn:E; simpl.
  - apply existsb_key_In in E. repeat split; try assumption.
    + apply Hseen.
    + apply Hseen.
    + apply subseq_skip_tail. assumption.
    + intros k. rewrite first_with_key_app, <- Hfirst.
      destruct (first_with_key k uniq) eqn:F; [reflexivity|].
      destruct (key_eqb (dedup_key h) k) eqn:K; [|reflexivity].
      apply key_eqb_eq in K. subst k.
      apply first_with_key_None in F. exfalso. apply F, Hseen, E.
  - assert (Hnew : ~ In (dedup_key h) (map dedup_key uniq)).
    { intros Hin. apply Hseen in Hin. apply existsb_key_In in Hin. congruence. }
    repeat split.
    + intros [<- | Hk]; rewrite map_app, in_app_iff; simpl; [auto|].
      left. apply Hseen. assumption.
    + rewrite map_app, in_app_iff. simpl. intros [Hk | [Hk | []]]; [|auto].
      right. apply Hseen. assumption.
    + rewrite map_app. simpl.
      apply (Permutation_NoDup (Permutation_cons_append _ _)).
      constructor; assumption.
    + apply subseq_app_tail. assumption.
    + intros k. rewrite !first_with_key_app, Hfirst. reflexivity.
Qed.

Lemma dedup_fold_inv (hs : list heading) : forall done st,
  dedup_inv done st -> dedup_inv (done ++ hs) (fold_left dedup_step hs st).
Proof.
  induction hs as [|h hs IH]; intros done st Hinv; simpl.
  - rewrite app_nil_r. assumption.
  - replace (done ++ h :: hs) with ((done ++ [h]) ++ hs)
      by (rewrite <- app_assoc; reflexivity).
    apply IH. apply dedup_step_inv. assumption.
Qed.

Lemma dedup_spec (hs : list heading) :
  dedup_inv hs (fold_left dedup_step hs ([], [])).
Proof.
  apply (dedup_fold_inv hs [] ([], [])).
  unfold dedup_inv. simpl. repeat split; auto; try constructor.
Qed.

(** ** Post-processing *)

Lemma first_with_key_In_NoDup (l : list heading) (h : heading) :
  NoDup (map dedup_key l) -> In h l -> first_with_key (dedup_key h) l = Some h.
Proof.
  unfold first_with_key. induction l as [|y l IH]; simpl; intros Hnd Hin;
    [contradiction|].
  inversion Hnd as [|? ? Hnin Hnd']; subst.
  destruct (key_eqb (dedup_key y) (dedup_key h)) eqn:E.
  - apply key_eqb_eq in E. destruct Hin as [-> | Hin]; [reflexivity|].
    exfalso. apply Hnin. rewrite E. apply in_map. assumption.
  - destruct Hin as [-> | Hin]; [|auto].
    rewrite (proj2 (key_eqb_eq _ _) eq_refl) in E. discriminate.
Qed.

Lemma first_with_key_perm (l l' : list heading) (k : heading_key) :
  NoDup (map dedup_key l) -> Permutation l l' ->
  first_with_key k l = first_with_key k l'.
Proof.
  intros Hnd Hp.
  assert (Hnd' : NoDup (map dedup_key l')).
  { eapply Permutation_NoDup; [apply Permutation_map; exact Hp | assumption]. }
  destruct (first_with_key k l) as [h|] eqn:F.
  - unfold first_with_key in F. apply find_some in F. destruct F as [Hin E].
    apply key_eqb_eq in E. subst k. symmetry.
    apply first_with_key_In_NoDup; [assumption|].
    eapply Permutation_in; eauto.
  - symmetry. apply first_with_key_None. apply first_with_key_None in F.
    intros Hin. apply F.
    eapply Permutation_in; [apply Permutation_map, Permutation_sym; exact Hp|].
    assumption.
Qed.

(** [_post_process_headings] returns, in sorted order, one heading for
    each (text, page) of its argument: the first one. *)
Lemma post_process_spec (hs : list heading) :
  (forall h, In h (_post_process_headings hs) -> In h hs)
  /\ NoDup (map dedup_key (_post_process_headings hs))
  /\ (forall k, first_with_key k (_post_process_headings hs) = first_with_key k hs)
  /\ StronglySorted key_le (_post_process_headings hs).
Proof.
  destruct hs as [|h0 hs0].
  - simpl. repeat split; auto; constructor.
  - remember (h0 :: hs0) as hs eqn:Ehs.
    assert (Epost : _post_process_headings hs
                    = py_sort sort_key_ltb (snd (fold_left dedup_step hs ([], [])))).
    { subst hs. reflexivity. }
    rewrite Epost. clear Ehs Epost.
    destruct (dedup_spec hs) as (_ & Hnd & Hsub & Hfirst).
    set (uniq := snd (fold_left dedup_step hs ([], []))) in *.
    pose proof (py_sort_perm heading sort_key_ltb uniq) as Hp.
    repeat split.
    + intros h Hin. eapply subseq_In; [exact Hsub|].
      eapply Permutation_in; eauto.
    + eapply Permutation_NoDup;
        [apply Permutation_map, Permutation_sym; exact Hp | assumption].
    + intros k. rewrite <- Hfirst. symmetry.
      apply first_with_key_perm; [assumption | apply Permutation_sym; exact Hp].
    + apply (py_sort_sorted heading sort_key_ltb key_le).
      * apply sort_key_ltb_true.
      * apply sort_key_ltb_false.
      * apply key_le_trans.
Qed.

(** ** The outline *)

(** The outline is computed without an exception: it is the retained
    headings of the post-processed list, cleaned. *)
Lemma extract_headings_spec (d : document) (title : str) (cfs : Q) :
  _extract_headings_from_text d title cfs
  = Ok (map clean_heading
          (retained_headings d (_post_process_headings (raw_headings d title cfs)))).
Proof.
  unfold _extract_headings_from_text. apply filter_headings_spec.
  apply Forall_forall. intros h Hin.
  apply (proj1 (post_process_spec _)) in Hin.
  pose proof (raw_headings_pages d title cfs) as HF.
  rewrite Forall_forall in HF. apply HF. exact Hin.
Qed.

(** C5. Every heading of the outline has a page of at least 1: the
    headings carry 0-based pages of the document until the filter emits
    them, and the emission adds 1. *)
Theorem outline_pages_one_based (d : document) (title : str) (cfs : Q) :
  exists kept,
    _extract_headings_from_text d title cfs = Ok (map clean_heading kept)
    /\ Forall (fun h => 0 <= h_page h < doc_len d) kept
    /\ map o_page (map clean_heading kept) = map (fun h => h_page h + 1) kept
    /\ Forall (fun e => 1 <= o_page e) (map clean_heading kept).
Proof.
  set (post := _post_process_headings (raw_headings d title cfs)).
  exists (retained_headings d post).
  assert (Hkept : Forall (page_in d) (retained_headings d post)).
  { apply (subseq_Forall _ _ _ post (retained_headings_subseq d post)).
    apply Forall_forall. intros h Hin.
    apply (proj1 (post_process_spec _)) in Hin.
    pose proof (raw_headings_pages d title cfs) as HF.
    rewrite Forall_forall in HF. apply HF. exact Hin. }
  split; [apply extract_headings_spec|].
  split; [exact Hkept|].
  split.
  - rewrite map_map. reflexivity.
  - apply Forall_forall. intros e He. apply in_map_iff in He.
    destruct He as (h & <- & Hh). rewrite Forall_forall in Hkept.
    specialize (Hkept h Hh). unfold page_in in Hkept. simpl. lia.
Qed.

Lemma NoDup_outline_keys (kept : list heading) :
  NoDup (map dedup_key kept) ->
  NoDup (map (fun e => (o_text e, o_page e)) (map clean_heading kept)).
Proof.
  induction kept as [|h kept IH]; simpl; intros Hnd; [constructor|].
  inversion Hnd as [|? ? Hnin Hnd']; subst. constructor; [|auto].
  intros Hin. apply Hnin. rewrite map_map in Hin. apply in_map_iff in Hin.
  destruct Hin as (h' & E & Hh'). simpl in E. injection E as Et Ep.
  apply in_map_iff. exists h'. split; [|assumption].
  unfold dedup_key. f_equal; [assumption | lia].
Qed.

(** C6. No two entries of the outline have the same (text, page), and the
    entry with a given (text, page) comes from the first extracted heading
    with that text on that page. *)
Theorem outline_no_duplicates (d : document) (title : str) (cfs : Q) :
  exists out,
    _extract_headings_from_text d title cfs = Ok out
    /\ NoDup (map (fun e => (o_text e, o_page e)) out)
    /\ (forall e, In e out ->
          exists h,
            first_with_key (o_text e, o_page e - 1) (raw_headings d title cfs)
            = Some h
            /\ e = clean_heading h)
    /\ (forall hs k,
          first_with_key k (_post_process_headings hs) = first_with_key k hs).
Proof.
  set (raw := raw_headings d title cfs).
  set (post := _post_process_headings raw).
  exists (map clean_heading (retained_headings d post)).
  destruct (post_process_spec raw) as (Hin & Hnd & Hfirst & _).
  split; [apply extract_headings_spec|].
  split; [|split].
  - apply NoDup_outline_keys.
    apply (subseq_NoDup_map _ _ dedup_key _ post (retained_headings_subseq d post)).
    exact Hnd.
  - intros e He. apply in_map_iff in He. destruct He as (h & <- & Hh).
    exists h. split; [|reflexivity].
    apply (subseq_In _ _ _ _ (retained_headings_subseq d post)) in Hh.
    simpl. replace (h_page h + 1 - 1) with (h_page h) by lia.
    rewrite <- Hfirst. apply (first_with_key_In_NoDup _ h Hnd Hh).
  - intros hs k. apply (post_process_spec hs).
Qed.

Lemma StronglySorted_clean (kept : list heading) :
  StronglySorted key_le kept ->
  StronglySorted (fun e f => o_page e <= o_page f) (map clean_heading kept).
Proof.
  induction 1 as [|h kept HS IH HF]; simpl; constructor; [assumption|].
  apply Forall_forall. intros e He. apply in_map_iff in He.
  destruct He as (h' & <- & Hh'). rewrite Forall_forall in HF.
  specialize (HF h' Hh'). unfold key_le in HF. simpl. lia.
Qed.

(** C7. The post-processed headings are in non-decreasing order of page
    and, on one page, of vertical position (0 without a bbox); the filter
    leaves headings out and keeps the order, so that the pages of the
    outline are non-decreasing. *)
Theorem outline_sorted (d : document) (title : str) (cfs : Q) :
  exists kept,
    _extract_headings_from_text d title cfs = Ok (map clean_heading kept)
    /\ subseq kept (_post_process_headings (raw_headings d title cfs))
    /\ StronglySorted key_le (_post_process_headings (raw_headings d title cfs))
    /\ StronglySorted key_le kept
    /\ StronglySorted (fun e f => o_page e <= o_page f) (map clean_heading kept).
Proof.
  set (post := _post_process_headings (raw_headings d title cfs)).
  exists (retained_headings d post).
  pose proof (retained_headings_subseq d post) as Hsub.
  destruct (post_process_spec (raw_headings d title cfs)) as (_ & _ & _ & HS).
  assert (HSk : StronglySorted key_le (retained_headings d post)).
  { eapply subseq_StronglySorted; eauto. }
  split; [apply extract_headings_spec|].
  repeat split; auto. apply StronglySorted_clean. assumption.
Qed.

(** ** The content scan *)

Lemma line_has_content_spec (h : heading) (ln : line) :
  line_has_content h ln = true <->
  joined_line_text ln <> []
  /\ line_skipped h (joined_line_text ln) = false
  /\ line_is_content (joined_line_text ln) = true.
Proof.
  unfold line_has_content, line_skipped, line_is_content.
  destruct (joined_line_text ln) as [|c t] eqn:Et.
  - split; [discriminate | intros [H _]; congruence].
  - rewrite <- Et.
    destruct (contains (lower (h_text h)) (lower (joined_line_text ln))); simpl.
    { split; [discriminate | intros (_ & H & _); discriminate]. }
    destruct (_matches_heading_patterns (joined_line_text ln)); simpl.
    { split; [discriminate | intros (_ & H & _); discriminate]. }
    destruct ((len (joined_line_text ln) >? 40)
              && negb (isupper (joined_line_text ln))); simpl.
    { split; intros; [repeat split; congruence | reflexivity]. }
    destruct (re_match bullet_item (joined_line_text ln)); simpl.
    { split; intros; [repeat split; congruence | reflexivity]. }
    destruct (re_match numbered_item (joined_line_text ln)); simpl.
    { split; intros; [repeat split; congruence | reflexivity]. }
    split; [discriminate | intros (_ & _ & H); discriminate].
Qed.

Lemma block_has_content_spec (h : heading) (blk : block) :
  block_has_content h blk = true <-> content_block h blk.
Proof.
  unfold block_has_content, content_block.
  destruct (block_lines blk) as [lines|].
  - rewrite existsb_exists. split.
    + intros (ln & Hin & H). exists ln. split; [assumption|].
      apply line_has_content_spec. assumption.
    + intros (ln & Hin & H). exists ln. split; [assumption|].
      apply line_has_content_spec. assumption.
  - destruct (block_type blk) as [t|].
    + destruct t as [|p|p]; try (split; [discriminate | intros E; discriminate E]).
      destruct p; try (split; [discriminate | intros E; discriminate E]).
      split; reflexivity.
    + split; [discriminate | intros E; discriminate E].
Qed.


(** The scan over pages of the document answers [True] exactly when one of
    their blocks is a content block. *)
Lemma scan_pages_spec (d : document) (h : heading) (nums : list Z) :
  (forall n, In n nums -> 0 <= n < doc_len d) ->
  exists b, scan_pages d h nums = Ok b
    /\ (b = true <->
        exists n page blk,
          In n nums /\ nth_error (doc_pages d) (Z.to_nat n) = Some page
          /\ In blk page /\ content_block h blk).
Proof.
  induction nums as [|n nums IH]; simpl; intros Hin.
  - exists false. split; [reflexivity|]. split; [discriminate|].
    intros (n & page & blk & [] & _).
  - destruct (doc_getitem_Ok d n) as (p & Ep & Enth); [auto|].
    rewrite Ep. simpl.
    destruct (existsb (block_has_content h) p) eqn:Eb.
    + exists true. split; [reflexivity|]. split; [|reflexivity]. intros _.
      apply existsb_exists in Eb. destruct Eb as (blk & Hblk & Hc).
      exists n, p, blk. repeat split; auto. apply block_has_content_spec. assumption.
    + destruct IH as (b & Es & Hb); [auto|].
      exists b. split; [assumption|]. rewrite Hb. split.
      * intros (n' & page & blk & Hn' & Hrest). exists n', page, blk. auto.
      * intros (n' & page & blk & [<- | Hn'] & Enth' & Hblk & Hc).
        -- exfalso. rewrite Enth in Enth'. injection Enth' as <-.
           apply block_has_content_spec in Hc.
           assert (existsb (block_has_content h) p = true)
             by (apply existsb_exists; eauto).
           congruence.
        -- exists n', page, blk. auto.
Qed.


(** ** Retained headings *)

Lemma has_children_scan_false (h : heading) (later : list heading) :
  (forall hj, In hj later -> h_page hj <= h_page h + 1 ->
              level_digit (h_level hj) <= level_digit (h_level h)) ->
  has_children_scan h later = false.
Proof.
  induction later as [|hj later IH]; simpl; intros Hno; [reflexivity|].
  destruct (h_page hj >? h_page h + 1) eqn:Ep; [reflexivity|].
  assert (Hl : level_digit (h_level hj) <= level_digit (h_level h)).
  { apply Hno; [auto|]. rewrite Z.gtb_ltb in Ep. apply Z.ltb_ge in Ep. lia. }
  replace (level_digit (h_level hj) >? level_digit (h_level h)) with false
    by (symmetry; rewrite Z.gtb_ltb; apply Z.ltb_ge; lia).
  apply IH. intros hk Hk. apply Hno. auto.
Qed.






Lemma determine_heading_level_by_numbering_witness :
  _determine_heading_level line_data_2_3_1 (_calculate_size_thresholds 12) = H3
  /\ _determine_heading_level line_data_1_1 (_calculate_size_thresholds 12) = H2.
Proof.
  split.
  - apply (proj1 (determine_heading_level_by_numbering line_data_2_3_1
                    (_calculate_size_thresholds 12))).
    vm_compute. reflexivity.
  - apply (proj2 (determine_heading_level_by_numbering line_data_1_1
                    (_calculate_size_thresholds 12))).
    vm_compute. reflexivity.
Defined.




(** ** The title *)

Lemma is_potential_title_len (cfs : Q) (text : str) (size : Q) (flags : Z) :
  _is_potential_title cfs text size flags = true -> 3 <= len text <= 150.
Proof.
  unfold _is_potential_title. destruct text as [|c t]; [discriminate|].
  destruct ((len (c :: t) <? 3) || (len (c :: t) >? 150)) eqn:E; [discriminate|].
  intros _. apply orb_false_iff in E. destruct E as [E1 E2].
  apply Z.ltb_ge in E1. rewrite Z.gtb_ltb in E2. apply Z.ltb_ge in E2. lia.
Qed.

Lemma title_line_candidates_len (cfs : Q) (ln : line) :
  Forall (fun c => 3 <= len (tc_text c) <= 150) (title_line_candidates cfs ln).
Proof.
  unfold title_line_candidates.
  destruct (fold_left title_span_step ln ([], 0%Q, None, 0))
    as [[[line_text max_size] y_pos] flags].
  destruct (_is_potential_title cfs (strip line_text) max_size flags) eqn:E;
    [|constructor].
  constructor; [|constructor]. simpl.
  apply (is_potential_title_len cfs _ max_size flags E).
Qed.

Lemma title_candidates_len (cfs : Q) (p : page) :
  Forall (fun c => 3 <= len (tc_text c) <= 150)
         (flat_map (title_block_candidates cfs) p).
Proof.
  apply Forall_forall. intros c Hc. apply in_flat_map in Hc.
  destruct Hc as (b & _ & Hc). unfold title_block_candidates in Hc.
  destruct (block_lines b) as [lines|]; [|contradiction].
  apply in_flat_map in Hc. destruct Hc as (ln & _ & Hc).
  pose proof (title_line_candidates_len cfs ln) as HF.
  rewrite Forall_forall in HF. apply HF. assumption.
Qed.

(** C4, as stated, fails: a bold line of three characters on the first
    page is a title candidate, and the title it gives has length 3. *)
Lemma title_length_counterexample :
  _extract_title_enhanced doc_abc (snd (_analyze_document_fonts doc_abc))
  = lit "Abc"
  /\ lit "Abc" <> UNKNOWN_TITLE
  /\ _clean_text (lit "Abc") = lit "Abc"
  /\ ~ (len (_clean_text (lit "Abc")) > 3)
  /\ snd (process_pdf new_extractor (single_file_world (lit "abc.pdf") doc_abc)
                      (lit "abc.pdf"))
     = Ok (Result (lit "Abc") []).
Proof.
  split; [vm_compute; reflexivity|].
  split; [discriminate|].
  split; [vm_compute; reflexivity|].
  split; [vm_compute; congruence|].
  vm_compute. reflexivity.
Qed.

(** ** The baseline *)

Lemma count_size_cons (k x : Q) (l : list Q) :
  count_size k (x :: l)
  = (if Qeq_bool k x then 1 else 0) + count_size k l.
Proof.
  unfold count_size. cbn [filter]. destruct (Qeq_bool k x); cbn [List.length]; lia.
Qed.

Lemma count_size_eq (k x : Q) (l : list Q) :
  Qeq_bool k x = true -> count_size k l = count_size x l.
Proof.
  intros E. unfold count_size. f_equal. f_equal.
  apply filter_ext. intros y.
  destruct (Qeq_bool k y) eqn:Ek, (Qeq_bool x y) eqn:Ex; try reflexivity.
  - rewrite (Qeq_bool_trans _ _ _ (Qeq_bool_sym _ _ E) Ek) in Ex. discriminate.
  - rewrite (Qeq_bool_trans _ _ _ E Ex) in Ek. discriminate.
Qed.

Lemma count_size_filter (x k : Q) (l : list Q) :
  Qeq_bool x k = false ->
  count_size k (filter (fun y => negb (Qeq_bool x y)) l) = count_size k l.
Proof.
  intros E. unfold count_size. f_equal. f_equal.
  induction l as [|y l IH]; simpl; [reflexivity|].
  destruct (Qeq_bool x y) eqn:Exy; simpl.
  - destruct (Qeq_bool k y) eqn:Eky; [|assumption].
    rewrite (Qeq_bool_trans _ _ _ Exy (Qeq_bool_sym _ _ Eky)) in E. discriminate.
  - destruct (Qeq_bool k y); [f_equal|]; assumption.
Qed.

(** The first key of a counter takes the elements equal to it; the others
    go to the rest of the counter. *)
Lemma fold_counter_incr_head : forall (l : list Q) (k : Q) (n : Z) (c : counter),
  fold_left (fun c x => counter_incr x c) l ((k, n) :: c)
  = (k, n + count_size k l)
    :: fold_left (fun c x => counter_incr x c)
                 (filter (fun y => negb (Qeq_bool k y)) l) c.
Proof.
  induction l as [|x l IH]; intros k n c; cbn [fold_left filter].
  - f_equal. f_equal. unfold count_size. cbn [filter List.length]. lia.
  - cbn [counter_incr]. rewrite count_size_cons.
    destruct (Qeq_bool k x) eqn:E; cbn [negb fold_left]; rewrite IH;
      f_equal; f_equal; lia.
Qed.

Lemma Counter_cons (x : Q) (l : list Q) :
  Counter (x :: l)
  = (x, 1 + count_size x l) :: Counter (filter (fun y => negb (Qeq_bool x y)) l).
Proof. unfold Counter. simpl. apply fold_counter_incr_head. Qed.

Lemma filter_split {A : Type} (f : A -> bool) : forall (l a b : list A) (k : A),
  filter f l = a ++ k :: b ->
  exists a0 b0, l = a0 ++ k :: b0 /\ filter f a0 = a.
Proof.
  induction l as [|y l IH]; simpl; intros a b k E.
  - destruct a; discriminate.
  - destruct (f y) eqn:Ef.
    + destruct a as [|z a]; simpl in E.
      * injection E as -> E. exists [], l. auto.
      * injection E as -> E. destruct (IH _ _ _ E) as (a0 & b0 & -> & <-).
        exists (z :: a0), b0. simpl. rewrite Ef. auto.
    + destruct (IH _ _ _ E) as (a0 & b0 & -> & <-).
      exists (y :: a0), b0. simpl. rewrite Ef. auto.
Qed.

Lemma Counter_ok_length : forall (m : nat) (l : list Q),
  (List.length l <= m)%nat -> counter_ok l (Counter l).
Proof.
  induction m as [|m IH]; intros l Hlen.
  - destruct l; [|simpl in Hlen; lia]. split.
    + intros c1 k n c2 E. destruct c1; discriminate.
    + intros y [].
  - destruct l as [|x l].
    { split; [intros c1 k n c2 E; destruct c1; discriminate | intros y []]. }
    rewrite Counter_cons.
    set (l' := filter (fun y => negb (Qeq_bool x y)) l).
    assert (Hl' : (List.length l' <= m)%nat).
    { pose proof (filter_length_le (fun y => negb (Qeq_bool x y)) l).
      simpl in Hlen. unfold l'. lia. }
    destruct (IH l' Hl') as [Hent Hcov]. split.
    + intros c1 k n c2 E. destruct c1 as [|e c1]; simpl in E.
      * injection E as <- <- _. split.
        -- rewrite count_size_cons, Qeq_bool_refl. reflexivity.
        -- exists [], l. split; [reflexivity | intros y []].
      * injection E as <- E.
        destruct (Hent _ _ _ _ E) as (Hn & pre' & post' & Epre & Hpre).
        assert (Hk : In k l') by (rewrite Epre; apply in_elt).
        apply filter_In in Hk. destruct Hk as [_ Hk].
        apply negb_true_iff in Hk.
        split.
        -- rewrite count_size_cons.
           replace (Qeq_bool k x) with false.
           ++ rewrite Hn. unfold l'. rewrite count_size_filter by assumption. lia.
           ++ destruct (Qeq_bool k x) eqn:Ekx; [|reflexivity].
              rewrite (Qeq_bool_sym _ _ Ekx) in Hk. discriminate.
        -- destruct (filter_split _ _ _ _ _ Epre) as (a0 & b0 & El & Ea0).
           exists (x :: a0), b0. split; [rewrite El; reflexivity|].
           intros y [<- | Hy].
           ++ exists x, (1 + count_size x l). split; [left; reflexivity|].
              apply Qeq_bool_refl.
           ++ destruct (Qeq_bool x y) eqn:Exy.
              ** exists x, (1 + count_size x l). split; [left; reflexivity|assumption].
              ** assert (Hy' : In y pre').
                 { rewrite <- Ea0. apply filter_In. split; [assumption|].
                   rewrite Exy. reflexivity. }
                 destruct (Hpre y Hy') as (k' & n' & Hin & Ek').
                 exists k', n'. split; [right; assumption | assumption].
    + intros y [<- | Hy].
      * exists x, (1 + count_size x l). split; [left; reflexivity|].
        apply Qeq_bool_refl.
      * destruct (Qeq_bool x y) eqn:Exy.
        -- exists x, (1 + count_size x l). split; [left; reflexivity|assumption].
        -- assert (Hy' : In y l').
           { apply filter_In. split; [assumption|]. rewrite Exy. reflexivity. }
           destruct (Hcov y Hy') as (k & n & Hin & Ek).
           exists k, n. split; [right; assumption | assumption].
Qed.

Lemma Counter_ok (l : list Q) : counter_ok l (Counter l).
Proof. apply (Counter_ok_length (List.length l)). lia. Qed.

(** [max] keeps the first of the items with the greatest count. *)
Lemma max_by_count_spec : forall (items : counter) (best : Q * Z),
  exists i1 i2,
    best :: items = i1 ++ max_by_count best items :: i2
    /\ (forall it, In it i1 -> snd it < snd (max_by_count best items))
    /\ (forall it, In it i2 -> snd it <= snd (max_by_count best items)).
Proof.
  induction items as [|it items IH]; intros best; simpl.
  - exists [], []. split; [reflexivity|]. split; intros ? [].
  - destruct (snd it >? snd best) eqn:E.
    + rewrite Z.gtb_ltb in E. apply Z.ltb_lt in E.
      destruct (IH it) as (j1 & j2 & Ej & H1 & H2).
      exists (best :: j1), j2. split; [rewrite Ej; reflexivity|].
      split; [|assumption].
      intros x [<- | Hx]; [|auto].
      destruct j1 as [|y j1]; simpl in Ej.
      * injection Ej as Ej _. rewrite <- Ej. assumption.
      * injection Ej as <- _. specialize (H1 it (or_introl eq_refl)). lia.
    + rewrite Z.gtb_ltb in E. apply Z.ltb_ge in E.
      destruct (IH best) as (j1 & j2 & Ej & H1 & H2).
      destruct j1 as [|y j1]; simpl in Ej.
      * injection Ej as Eb <-. exists [], (it :: items).
        split; [rewrite <- Eb; reflexivity|].
        split; [intros ? []|].
        intros x [<- | Hx]; [rewrite <- Eb; assumption | auto].
      * injection Ej as <- Ej. exists (best :: it :: j1), j2.
        split; [simpl; do 2 f_equal; exact Ej|]. split; [|assumption].
        intros x [<- | [<- | Hx]].
        -- apply H1. left. reflexivity.
        -- specialize (H1 best (or_introl eq_refl)). lia.
        -- apply H1. right. assumption.
Qed.

Lemma counter_entry_count (l : list Q) (k : Q) (n : Z) :
  In (k, n) (Counter l) -> n = count_size k l.
Proof.
  intros Hin. apply in_split in Hin. destruct Hin as (c1 & c2 & E).
  apply (proj1 (Counter_ok l) c1 k n c2 E).
Qed.

(** [Counter(l).most_common(1)] is the element of [l] with the greatest
    count that occurs first. *)
Lemma most_common_spec (l : list Q) :
  l <> [] ->
  exists k n,
    most_common_1 (Counter l) = [(k, n)]
    /\ exists pre post,
         l = pre ++ k :: post
         /\ (forall x, In x pre -> count_size x l < count_size k l)
         /\ (forall x, In x l -> count_size x l <= count_size k l).
Proof.
  intros Hne. destruct l as [|x l0]; [congruence|].
  remember (x :: l0) as l eqn:El.
  assert (Ec : exists e rest, Counter l = e :: rest).
  { subst l. rewrite Counter_cons. eauto. }
  destruct Ec as (e & rest & Ec).
  destruct (max_by_count_spec rest e) as (i1 & i2 & Esplit & H1 & H2).
  destruct (max_by_count e rest) as [k n] eqn:Er.
  exists k, n. split; [rewrite Ec; simpl; rewrite Er; reflexivity|].
  rewrite <- Ec in Esplit.
  destruct (proj1 (Counter_ok l) i1 k n i2 Esplit) as (Hn & pre & post & Epre & Hpre).
  exists pre, post. split; [assumption|]. split.
  - intros y Hy. destruct (Hpre y Hy) as (k' & n' & Hin & Ek').
    rewrite <- (count_size_eq k' y l Ek').
    assert (Hn' : n' = count_size k' l).
    { apply counter_entry_count. rewrite Esplit. apply in_or_app. auto. }
    specialize (H1 (k', n') Hin). simpl in H1. lia.
  - intros y Hy. destruct (proj2 (Counter_ok l) y Hy) as (k' & n' & Hin & Ek').
    rewrite <- (count_size_eq k' y l Ek').
    pose proof (counter_entry_count l k' n' Hin) as Hn'.
    rewrite Esplit in Hin. apply in_app_or in Hin.
    destruct Hin as [Hin | [E | Hin]].
    + specialize (H1 (k', n') Hin). simpl in H1. lia.
    + injection E as <- <-. lia.
    + specialize (H2 (k', n') Hin). simpl in H2. lia.
Qed.

(** C10. The baseline is 12 when no span of the first three pages has
    text; otherwise it is one of the span sizes, no size is more frequent,
    and every size scanned before its first occurrence is strictly less
    frequent: among the most frequent sizes, the one met first. *)
Theorem baseline_is_first_most_common (d : document) :
  fst (_analyze_document_fonts d) = flat_map page_sizes (firstn 3 (doc_pages d))
  /\ (fst (_analyze_document_fonts d) = [] ->
      snd (_analyze_document_fonts d) = 12%Q)
  /\ (fst (_analyze_document_fonts d) <> [] ->
      exists pre post,
        fst (_analyze_document_fonts d)
        = pre ++ snd (_analyze_document_fonts d) :: post
        /\ (forall x, In x pre ->
              count_size x (fst (_analyze_document_fonts d))
              < count_size (snd (_analyze_document_fonts d))
                           (fst (_analyze_document_fonts d)))
        /\ (forall x, In x (fst (_analyze_document_fonts d)) ->
              count_size x (fst (_analyze_document_fonts d))
              <= count_size (snd (_analyze_document_fonts d))
                            (fst (_analyze_document_fonts d)))).
Proof.
  unfold _analyze_document_fonts. cbn [fst snd].
  set (sizes := flat_map page_sizes (firstn 3 (doc_pages d))).
  split; [reflexivity|]. split.
  - intros E. rewrite E. reflexivity.
  - intros Hne. destruct (most_common_spec sizes Hne) as (k & n & Emc & Hspec).
    destruct sizes as [|s sizes'] eqn:Es; [congruence|].
    rewrite Emc. cbn [fst]. exact Hspec.
Qed.

Lemma baseline_is_first_most_common_witness :
  snd (_analyze_document_fonts doc_tie) = 10%Q
  /\ exists pre post,
       fst (_analyze_document_fonts doc_tie)
       = pre ++ snd (_analyze_document_fonts doc_tie) :: post
       /\ (forall x, In x pre ->
             count_size x (fst (_analyze_document_fonts doc_tie))
             < count_size (snd (_analyze_document_fonts doc_tie))
                          (fst (_analyze_document_fonts doc_tie)))
       /\ (forall x, In x (fst (_analyze_document_fonts doc_tie)) ->
             count_size x (fst (_analyze_document_fonts doc_tie))
             <= count_size (snd (_analyze_document_fonts doc_tie))
                           (fst (_analyze_document_fonts doc_tie))).
Proof.
  split; [vm_compute; reflexivity|].
  apply (proj2 (proj2 (baseline_is_first_most_common doc_tie))).
  vm_compute. discriminate.
Defined.

(** ** Normalization of the heading texts *)

(** C8 fails on the code.  [_clean_text] removes the control characters
    after it has collapsed the whitespace, so a control character next to a
    space leaves a space too many: the heading of [doc_control] is emitted
    with the text "Scope  Notes", and the merged heading of [doc_syllabus]
    with the text "Course  Syllabus"; [_clean_text] would change both. *)
Theorem heading_text_not_normalized :
  (snd (process_pdf new_extractor
          (single_file_world (lit "report.pdf") doc_control) (lit "report.pdf"))
   = Ok (Result (lit "Annual Report")
                [OutlineEntry H1 (lit "Scope  Notes") 1])
   /\ _clean_text line_scope_notes = lit "Scope  Notes"
   /\ _clean_text (lit "Scope  Notes") = lit "Scope Notes"
   /\ _clean_text (lit "Scope  Notes") <> lit "Scope  Notes")
  /\ (snd (process_pdf new_extractor
             (single_file_world (lit "course.pdf") doc_syllabus)
             (lit "course.pdf"))
      = Ok (Result (lit "Annual Report")
                   [OutlineEntry H1 (lit "Course  Syllabus") 1])
      /\ _clean_text (lit "Course  Syllabus") <> lit "Course  Syllabus").
Proof.
  split.
  - split; [vm_compute; reflexivity|].
    split; [vm_compute; reflexivity|].
    split; [vm_compute; reflexivity|].
    vm_compute. discriminate.
  - split; [vm_compute; reflexivity|].
    vm_compute. discriminate.
Qed.

(** ** [process_pdf]: the sentinel and the handle *)

(** With a new extractor, a file that cannot be opened gives the sentinel,
    and no handle is left. *)
Lemma process_pdf_open_fails (w : world) (pdf_path : str) (e : exn) :
  files w pdf_path = Raise e ->
  process_pdf new_extractor w pdf_path = (new_extractor, w, Ok ERROR_RESULT).
Proof.
  intros E. unfold process_pdf, process_pdf_try, fitz_open. rewrite E.
  reflexivity.
Qed.

(** With a new extractor, a document that has a page is processed without
    an exception, and its handle is closed on return. *)
Lemma process_pdf_closes_nonempty (w : world) (pdf_path : str) (d : document) :
  files w pdf_path = Ok d ->
  doc_pages d <> [] ->
  ~ In (next_handle w) (open_handles w) ->
  exists self' res,
    process_pdf new_extractor w pdf_path
    = (self', World (files w) (open_handles w) (S (next_handle w)), Ok res)
    /\ title res
       = _extract_title_enhanced d (snd (_analyze_document_fonts d)).
Proof.
  intros E Hne Hfresh.
  unfold process_pdf, process_pdf_try, fitz_open. rewrite E.
  cbn [handle_doc self_doc self_font_sizes self_common_font_size
       self_extracted_title].
  destruct (_analyze_document_fonts d) as [font_sizes common] eqn:Ef.
  cbn [self_doc self_font_sizes self_common_font_size self_extracted_title snd].
  unfold _extract_outline_enhanced. rewrite extract_headings_spec.
  cbn [process_pdf_except]. unfold process_pdf_finally.
  cbn [self_doc]. unfold handle_bool, handle_len, is_closed.
  cbn [open_handles handle_id existsb handle_doc Exc.bind].
  rewrite Nat.eqb_refl. cbn [orb negb Exc.bind].
  replace (doc_len d =? 0) with false.
  2:{ symmetry. apply Z.eqb_neq. unfold doc_len.
      destruct (doc_pages d); [congruence|]. simpl. lia. }
  cbn [negb]. unfold handle_close, is_closed.
  cbn [open_handles handle_id existsb files next_handle filter].
  rewrite Nat.eqb_refl. cbn [orb negb].
  assert (Hfilter : filter (fun i => negb (Nat.eqb (next_handle w) i))
                           (open_handles w) = open_handles w).
  { induction (open_handles w) as [|i l IH]; [reflexivity|].
    simpl. simpl in Hfresh.
    destruct (Nat.eqb (next_handle w) i) eqn:Ei.
    - apply Nat.eqb_eq in Ei. exfalso. apply Hfresh. left. congruence.
    - simpl. f_equal. apply IH. intros H. apply Hfresh. right. assumption. }
  rewrite Hfilter.
  eexists. eexists. split; reflexivity.
Qed.

(** C9 fails on the code, in the [finally] block.  A document without
    pages is false as a condition, so [close()] is skipped and its handle
    stays open; and when [fitz.open] fails, [self.doc] is still the closed
    document of the previous call, whose truth value raises: the exception
    replaces the sentinel. *)
Theorem process_pdf_finally_defects :
  (let '(_, w, r) :=
     process_pdf new_extractor
        (single_file_world (lit "empty.pdf") doc_no_pages) (lit "empty.pdf") in
   r = Ok (Result UNKNOWN_TITLE []) /\ open_handles w = [0%nat])
  /\ (let '(self1, w1, r1) :=
        process_pdf new_extractor
           (single_file_world (lit "abc.pdf") doc_abc) (lit "abc.pdf") in
      let '(_, w2, r2) := process_pdf self1 w1 (lit "broken.pdf") in
      r1 = Ok (Result (lit "Abc") [])
      /\ open_handles w1 = []
      /\ files w1 (lit "broken.pdf") = Raise FileDataError
      /\ r2 = Raise ValueError).
Proof.
  split.
  - vm_compute. split; reflexivity.
  - vm_compute. repeat split; reflexivity.
Qed.

(** * Further properties of the code *)

(** ** Confidence and thresholds *)

Lemma confidence_at_most (cfs : Q) (text : str) (size : Q) (flags : Z) :
  Qle_bool (_calculate_confidence cfs text size flags) (9 # 10) = true.
Proof.
  unfold _calculate_confidence.
  destruct (Qgtb size (cfs * (13 # 10))%Q);
    [|destruct (Qgtb size (cfs * (11 # 10))%Q)];
    destruct (bold_flag flags);
    destruct (_matches_heading_patterns text);
    destruct ((5 <=? len text) && (len text <=? 100));
    vm_compute; reflexivity.
Qed.

(** The score is a sum of at most 0.3 + 0.2 + 0.3 + 0.1: the cap at 1.0
    never acts. *)
Theorem calculate_confidence_bounds (cfs : Q) (text : str) (size : Q) (flags : Z) :
  (0 <= _calculate_confidence cfs text size flags)%Q
  /\ (_calculate_confidence cfs text size flags <= 9 # 10)%Q.
Proof.
  split; [|apply Qle_bool_iff, confidence_at_most].
  unfold _calculate_confidence.
  destruct (Qgtb size (cfs * (13 # 10))%Q);
    [|destruct (Qgtb size (cfs * (11 # 10))%Q)];
    destruct (bold_flag flags);
    destruct (_matches_heading_patterns text);
    destruct ((5 <=? len text) && (len text <=? 100));
    apply Qle_bool_iff; vm_compute; reflexivity.
Qed.

(** Without the bold flag and without a heading pattern the score stays at
    0.4 at most, whatever the size. *)
Lemma confidence_without_bold_or_pattern (cfs : Q) (text : str) (size : Q)
    (flags : Z) :
  bold_flag flags = false -> _matches_heading_patterns text = false ->
  Qgtb (_calculate_confidence cfs text size flags) (4 # 10) = false.
Proof.
  intros Hb Hp. unfold _calculate_confidence. rewrite Hb, Hp.
  destruct (Qgtb size (cfs * (13 # 10))%Q);
    [|destruct (Qgtb size (cfs * (11 # 10))%Q)];
    destruct ((5 <=? len text) && (len text <=? 100));
    vm_compute; reflexivity.
Qed.

(** For a baseline that is not negative the thresholds are positive and
    ordered, h3 <= h2 <= h1; a baseline of 0 counts as 12. *)
Theorem size_thresholds_ordered (cfs : Q) :
  (0 <= cfs)%Q ->
  (0 < h3 (_calculate_size_thresholds cfs))%Q
  /\ (h3 (_calculate_size_thresholds cfs) <= h2 (_calculate_size_thresholds cfs))%Q
  /\ (h2 (_calculate_size_thresholds cfs) <= h1 (_calculate_size_thresholds cfs))%Q
  /\ (Qeq_bool cfs 0 = true ->
      _calculate_size_thresholds cfs = _calculate_size_thresholds 12).
Proof.
  intros Hpos. unfold _calculate_size_thresholds.
  destruct (Qeq_bool cfs 0) eqn:E; cbn [h1 h2 h3].
  - repeat split; try (apply Qle_bool_iff; vm_compute; reflexivity).
  - assert (Hlt : (0 < cfs)%Q).
    { apply Qeq_bool_neq in E. apply Qle_lt_or_eq in Hpos.
      destruct Hpos as [H | H]; [assumption|]. exfalso. apply E. symmetry. assumption. }
    repeat split.
    + apply Qmult_lt_0_compat; [assumption | reflexivity].
    + apply Qmult_le_l; [assumption | apply Qle_bool_iff; reflexivity].
    + apply Qmult_le_l; [assumption | apply Qle_bool_iff; reflexivity].
    + discriminate.
Qed.

Lemma size_thresholds_ordered_witness :
  (0 < h3 (_calculate_size_thresholds 12))%Q
  /\ (h3 (_calculate_size_thresholds 12) <= h2 (_calculate_size_thresholds 12))%Q
  /\ (h2 (_calculate_size_thresholds 12) <= h1 (_calculate_size_thresholds 12))%Q
  /\ (Qeq_bool 12 0 = true ->
      _calculate_size_thresholds 12 = _calculate_size_thresholds 12).
Proof.
  apply (size_thresholds_ordered 12). apply Qle_bool_iff. reflexivity.
Defined.

(** ** [strip] *)

Lemma lstrip_head (s : str) :
  match lstrip s with
  | [] => True
  | c :: _ => is_space c = false
  end.
Proof.
  induction s as [|c s IH]; simpl; [exact I|].
  destruct (is_space c) eqn:E; [exact IH | exact E].
Qed.

Lemma lstrip_id (s : str) :
  match s with [] => True | c :: _ => is_space c = false end ->
  lstrip s = s.
Proof. destruct s as [|c s]; simpl; [reflexivity|]. intros ->. reflexivity. Qed.

Lemma lstrip_app_nonspace (l : str) (c : char) :
  is_space c = false -> lstrip (l ++ [c]) = lstrip l ++ [c].
Proof.
  intros Hc. induction l as [|x l IH]; simpl.
  - rewrite Hc. reflexivity.
  - destruct (is_space x); [exact IH | reflexivity].
Qed.

Lemma rstrip_cons_nonspace (c : char) (t : str) :
  is_space c = false -> rstrip (c :: t) = c :: rstrip t.
Proof.
  intros Hc. unfold rstrip. simpl.
  rewrite (lstrip_app_nonspace _ _ Hc), rev_app_distr. reflexivity.
Qed.

Lemma strip_stripped (s : str) : stripped (strip s).
Proof.
  unfold stripped, strip. split.
  - pose proof (lstrip_head s) as Hh.
    destruct (lstrip s) as [|c t]; [exact I|].
    rewrite (rstrip_cons_nonspace _ _ Hh). exact Hh.
  - unfold rstrip. rewrite rev_involutive. apply lstrip_head.
Qed.

Lemma stripped_strip (s : str) : stripped s -> strip s = s.
Proof.
  intros [Hh Hl]. unfold strip. rewrite (lstrip_id _ Hh).
  unfold rstrip. rewrite (lstrip_id _ Hl). apply rev_involutive.
Qed.

(** ** [_analyze_line] *)

(** What the loop over the spans keeps true: the size is not negative, and
    there is a bbox as soon as there is text. *)
Lemma analyze_spans_invariant (ln : line) : forall acc,
  (let '(line_text, max_size, flags, bbox) := acc in
   (0 <= max_size)%Q /\ (bbox = None -> line_text = [])) ->
  let '(line_text, max_size, flags, bbox) := fold_left analyze_span_step ln acc in
  (0 <= max_size)%Q /\ (bbox = None -> line_text = []).
Proof.
  induction ln as [|sp ln IH]; intros acc Hacc; [exact Hacc|].
  simpl. apply IH.
  destruct acc as [[[line_text max_size] flags] bbox]. destruct Hacc as [Hs Hb].
  unfold analyze_span_step.
  destruct (strip (span_text sp)) as [|c t]; [split; assumption|].
  split.
  - unfold py_max, Qgtb.
    destruct (Qle_bool (span_size sp) max_size) eqn:E; simpl; [assumption|].
    apply Qlt_le_weak. apply Qle_lt_trans with (y := max_size); [assumption|].
    apply Qnot_le_lt. intros H. apply Qle_bool_iff in H. congruence.
  - destruct bbox; discriminate.
Qed.

Lemma analyze_line_Some (cfs : Q) (ln : line) (ld : line_data) :
  _analyze_line cfs ln = Some ld ->
  strip (ld_text ld) = ld_text ld
  /\ 2 <= len (ld_text ld)
  /\ (0 <= ld_size ld)%Q
  /\ ld_bbox ld <> None
  /\ ld_confidence ld
     = _calculate_confidence cfs (ld_text ld) (ld_size ld) (ld_flags ld).
Proof.
  unfold _analyze_line.
  pose proof (analyze_spans_invariant ln ([], 0%Q, 0, None)) as Hinv.
  destruct (fold_left analyze_span_step ln ([], 0%Q, 0, None))
    as [[[line_text max_size] flags] bbox].
  destruct Hinv as [Hs Hb].
  { split; [apply Qle_refl | reflexivity]. }
  destruct (strip line_text) as [|c t] eqn:Es; [discriminate|].
  destruct (len (c :: t) <? 2) eqn:El; [discriminate|].
  intros E. injection E as <-. cbn [ld_text ld_size ld_flags ld_bbox ld_confidence].
  split; [rewrite <- Es; apply stripped_strip, strip_stripped|].
  split; [apply Z.ltb_ge in El; exact El|].
  split; [exact Hs|].
  split; [|reflexivity].
  intros Hnone. rewrite (Hb Hnone) in Es. discriminate.
Qed.

(** The size of the loop is the greatest size met so far. *)
Lemma analyze_spans_max (ln : line) : forall acc,
  (snd (fst (fst acc)) <= snd (fst (fst (fold_left analyze_span_step ln acc))))%Q
  /\ forall sp, In sp ln -> strip (span_text sp) <> [] ->
       (span_size sp <= snd (fst (fst (fold_left analyze_span_step ln acc))))%Q.
Proof.
  induction ln as [|sp ln IH]; intros acc; simpl.
  - split; [apply Qle_refl | intros sp []].
  - destruct (IH (analyze_span_step acc sp)) as [Hacc Hin].
    assert (Hstep : (snd (fst (fst acc))
                     <= snd (fst (fst (analyze_span_step acc sp))))%Q
                    /\ (strip (span_text sp) <> [] ->
                        (span_size sp
                         <= snd (fst (fst (analyze_span_step acc sp))))%Q)).
    { destruct acc as [[[t m] f] b]. unfold analyze_span_step.
      destruct (strip (span_text sp)) as [|c r]; cbn [fst snd].
      - split; [apply Qle_refl | congruence].
      - unfold py_max, Qgtb.
        destruct (Qle_bool (span_size sp) m) eqn:E; cbn [negb].
        + split; [apply Qle_refl | intros _; apply Qle_bool_iff; exact E].
        + split; [|intros _; apply Qle_refl].
          apply Qlt_le_weak, Qnot_le_lt. intros H.
          apply Qle_bool_iff in H. congruence. }
    destruct Hstep as [Hs1 Hs2]. split.
    + eapply Qle_trans; eauto.
    + intros sp' [<- | Hsp'] Hne; [|auto].
      eapply Qle_trans; [apply Hs2; exact Hne | exact Hacc].
Qed.

(** A line that [_analyze_line] keeps has a stripped text of two characters
    at least, a size that is not negative and not below the size of any of
    its spans with text, a bbox, and the confidence of its text, size and
    flags. *)
Theorem analyze_line_result (cfs : Q) (ln : line) (ld : line_data) :
  _analyze_line cfs ln = Some ld ->
  strip (ld_text ld) = ld_text ld
  /\ 2 <= len (ld_text ld)
  /\ (0 <= ld_size ld)%Q
  /\ (forall sp, In sp ln -> strip (span_text sp) <> [] ->
                 (span_size sp <= ld_size ld)%Q)
  /\ ld_bbox ld <> None
  /\ ld_confidence ld
     = _calculate_confidence cfs (ld_text ld) (ld_size ld) (ld_flags ld).
Proof.
  intros E.
  destruct (analyze_line_Some cfs ln ld E) as (Hs & Hl & Hz & Hb & Hc).
  repeat split; try assumption.
  intros sp Hin Hne.
  destruct (analyze_spans_max ln ([], 0%Q, 0, None)) as [_ Hmax].
  specialize (Hmax sp Hin Hne). revert E Hmax. unfold _analyze_line.
  destruct (fold_left analyze_span_step ln ([], 0%Q, 0, None))
    as [[[line_text max_size] flags] bbox]. cbn [fst snd].
  destruct (strip line_text) as [|c t]; [discriminate|].
  destruct (len (c :: t) <? 2); [discriminate|].
  intros E Hmax. injection E as <-. exact Hmax.
Qed.

Lemma analyze_line_result_witness :
  exists ld,
    _analyze_line 12 line_intro = Some ld
    /\ ld_text ld = lit "1. Introduction"
    /\ strip (ld_text ld) = ld_text ld
    /\ 2 <= len (ld_text ld)
    /\ (0 <= ld_size ld)%Q
    /\ ld_bbox ld <> None.
Proof.
  destruct (_analyze_line 12 line_intro) as [ld|] eqn:E;
    [|vm_compute in E; discriminate].
  exists ld.
  destruct (analyze_line_result 12 line_intro ld E) as (Hs & Hl & Hz & _ & Hb & _).
  split; [reflexivity|].
  split; [|auto].
  vm_compute in E. injection E as <-. reflexivity.
Defined.

(** A line whose spans are all blank is not analyzed. *)
Theorem analyze_line_blank (cfs : Q) (ln : line) :
  Forall (fun sp => strip (span_text sp) = []) ln ->
  _analyze_line cfs ln = None.
Proof.
  intros Hblank. unfold _analyze_line.
  assert (E : forall acc, fold_left analyze_span_step ln acc = acc).
  { induction Hblank as [|sp ln Hsp _ IH]; intros acc; [reflexivity|].
    simpl. rewrite IH. destruct acc as [[[a b] c] e].
    unfold analyze_span_step. rewrite Hsp. reflexivity. }
  rewrite E. reflexivity.
Qed.

Lemma analyze_line_blank_witness : _analyze_line 12 line_blank = None.
Proof.
  apply (analyze_line_blank 12 line_blank).
  repeat constructor.
Defined.

(** ** Heading candidates need more than their size *)

Lemma heading_candidate_needs (cfs : Q) (ln : line) (ld : line_data)
    (th : thresholds) :
  _analyze_line cfs ln = Some ld ->
  _is_heading_candidate ld th = true ->
  (bold_flag (ld_flags ld) = true \/ _matches_heading_patterns (ld_text ld) = true)
  /\ Qgtb (ld_confidence ld) (4 # 10) = true
  /\ 3 <= len (ld_text ld) <= 200.
Proof.
  intros Ha Hc. destruct (analyze_line_Some cfs ln ld Ha) as (_ & _ & _ & _ & Econf).
  unfold _is_heading_candidate in Hc.
  destruct ((len (ld_text ld) >? 200) || (len (ld_text ld) <? 3)) eqn:El;
    [discriminate|].
  apply andb_true_iff in Hc. destruct Hc as [_ Hconf].
  split; [|split; [exact Hconf|]].
  - destruct (bold_flag (ld_flags ld)) eqn:Eb; [left; reflexivity|].
    destruct (_matches_heading_patterns (ld_text ld)) eqn:Ep; [right; reflexivity|].
    rewrite Econf in Hconf.
    rewrite (confidence_without_bold_or_pattern cfs _ (ld_size ld) _ Eb Ep) in Hconf.
    discriminate.
  - apply orb_false_iff in El. destruct El as [E1 E2].
    rewrite Z.gtb_ltb in E1. apply Z.ltb_ge in E1. apply Z.ltb_ge in E2. lia.
Qed.

Lemma confidence_two_signals (cfs : Q) (text : str) (size : Q) (flags : Z) :
  Qgtb (_calculate_confidence cfs text size flags) (4 # 10) = true ->
  let big := Qgtb size (cfs * (13 # 10))%Q || Qgtb size (cfs * (11 # 10))%Q in
  (big && bold_flag flags) || (big && _matches_heading_patterns text)
  || (bold_flag flags && _matches_heading_patterns text) = true.
Proof.
  unfold _calculate_confidence.
  destruct (Qgtb size (cfs * (13 # 10))%Q);
    [|destruct (Qgtb size (cfs * (11 # 10))%Q)];
    destruct (bold_flag flags);
    destruct (_matches_heading_patterns text);
    destruct ((5 <=? len text) && (len text <=? 100));
    vm_compute; intros H; try reflexivity; discriminate H.
Qed.

(** A line is a heading candidate only with two of the three signals: a
    size above 1.1 (or 1.3) times the baseline, the bold flag, a heading
    pattern.  In particular it is bold or matches a heading pattern: the
    size alone gives a confidence of 0.4 at most, which is not above 0.4. *)
Theorem heading_candidate_bold_or_pattern (cfs : Q) (ln : line) (ld : line_data)
    (th : thresholds) :
  _analyze_line cfs ln = Some ld ->
  _is_heading_candidate ld th = true ->
  (bold_flag (ld_flags ld) = true \/ _matches_heading_patterns (ld_text ld) = true)
  /\ (let big := Qgtb (ld_size ld) (cfs * (13 # 10))%Q
                 || Qgtb (ld_size ld) (cfs * (11 # 10))%Q in
      (big && bold_flag (ld_flags ld))
      || (big && _matches_heading_patterns (ld_text ld))
      || (bold_flag (ld_flags ld) && _matches_heading_patterns (ld_text ld))
      = true).
Proof.
  intros Ha Hc.
  destruct (heading_candidate_needs cfs ln ld th Ha Hc) as (Hbp & Hconf & _).
  split; [exact Hbp|].
  destruct (analyze_line_Some cfs ln ld Ha) as (_ & _ & _ & _ & Econf).
  rewrite Econf in Hconf. apply (confidence_two_signals cfs _ _ _ Hconf).
Qed.

Lemma heading_candidate_bold_or_pattern_witness :
  exists ld,
    _analyze_line 12 line_intro = Some ld
    /\ (bold_flag (ld_flags ld) = true
        \/ _matches_heading_patterns (ld_text ld) = true).
Proof.
  destruct (_analyze_line 12 line_intro) as [ld|] eqn:E;
    [|vm_compute in E; discriminate].
  exists ld. split; [reflexivity|].
  apply (heading_candidate_bold_or_pattern 12 line_intro ld
           (_calculate_size_thresholds 12) E).
  vm_compute in E. injection E as <-. vm_compute. reflexivity.
Defined.

(** A bold line that matches a heading pattern and has 3 to 200 characters
    is a heading candidate, whatever its size and the thresholds. *)
Theorem bold_pattern_line_is_candidate (cfs : Q) (ln : line) (ld : line_data)
    (th : thresholds) :
  _analyze_line cfs ln = Some ld ->
  bold_flag (ld_flags ld) = true ->
  _matches_heading_patterns (ld_text ld) = true ->
  3 <= len (ld_text ld) <= 200 ->
  _is_heading_candidate ld th = true.
Proof.
  intros Ha Hb Hp Hlen.
  destruct (analyze_line_Some cfs ln ld Ha) as (_ & _ & _ & _ & Econf).
  unfold _is_heading_candidate.
  replace (len (ld_text ld) >? 200) with false
    by (symmetry; rewrite Z.gtb_ltb; apply Z.ltb_ge; lia).
  replace (len (ld_text ld) <? 3) with false by (symmetry; apply Z.ltb_ge; lia).
  cbn [orb]. rewrite Hp, orb_true_r. cbn [andb].
  rewrite Econf. unfold _calculate_confidence. rewrite Hb, Hp.
  destruct (Qgtb (ld_size ld) (cfs * (13 # 10))%Q);
    [|destruct (Qgtb (ld_size ld) (cfs * (11 # 10))%Q)];
    destruct ((5 <=? len (ld_text ld)) && (len (ld_text ld) <=? 100));
    vm_compute; reflexivity.
Qed.

Lemma bold_pattern_line_is_candidate_witness :
  exists ld,
    _analyze_line 12 line_intro = Some ld
    /\ _is_heading_candidate ld (_calculate_size_thresholds 12) = true.
Proof.
  destruct (_analyze_line 12 line_intro) as [ld|] eqn:E;
    [|vm_compute in E; discriminate].
  exists ld. split; [reflexivity|].
  apply (bold_pattern_line_is_candidate 12 line_intro ld
           (_calculate_size_thresholds 12) E);
    vm_compute in E; injection E as <-; vm_compute;
    try reflexivity; split; congruence.
Defined.

(** ** What every extracted heading carries *)

Lemma page_line_step_wf title cfs page_num th st ln :
  Forall (heading_wf page_num) (fst st) ->
  Forall (heading_wf page_num)
         (fst (page_line_step title cfs page_num th st ln)).
Proof.
  destruct st as [headings prev]. intros HF. unfold page_line_step.
  destruct (_analyze_line cfs ln) as [ld|] eqn:Ea; [|exact HF].
  destruct (existsb (str_eqb (strip (lower (ld_text ld)))) metadata_words
            && negb (page_num =? 0)); [exact HF|].
  destruct (str_eqb (strip (lower (ld_text ld))) title); [exact HF|].
  destruct (_is_heading_candidate ld th) eqn:Ec; [|exact HF].
  destruct (heading_candidate_needs cfs ln ld th Ea Ec) as (_ & Hconf & _).
  destruct (analyze_line_Some cfs ln ld Ea) as (_ & _ & _ & Hbbox & Econf).
  assert (Hemit : Forall (heading_wf page_num)
            (headings ++ [Heading (_determine_heading_level ld th)
                            (_clean_text (ld_text ld)) page_num
                            (ld_confidence ld) (ld_bbox ld)])).
  { apply Forall_app. split; [exact HF|]. constructor; [|constructor].
    unfold heading_wf. cbn [h_page h_bbox h_confidence].
    repeat split; try assumption.
    rewrite Econf. apply Qle_bool_iff, confidence_at_most. }
  destruct prev as [i|]; [|exact Hemit].
  destruct (str_eqb (strip (lower (ld_text ld))) (lit "syllabus"));
    [|exact Hemit].
  apply append_text_at_Forall; [|exact HF]. intros; assumption.
Qed.

Lemma extract_page_headings_wf title cfs blocks page_num th :
  Forall (heading_wf page_num)
         (_extract_page_headings title cfs blocks page_num th).
Proof.
  unfold _extract_page_headings.
  apply (fold_left_invariant
           (fun st => Forall (heading_wf page_num) (fst st))).
  - constructor.
  - intros st b Hst. unfold page_block_step.
    destruct (block_lines b) as [lines|]; [|assumption].
    apply (fold_left_invariant
             (fun st => Forall (heading_wf page_num) (fst st)));
      [assumption|].
    intros st' ln Hst'. apply page_line_step_wf. assumption.
Qed.

(** Every heading extracted from a document is on one of its pages, has a
    bbox (the position 0 of the sort key is never used for it) and a
    confidence above 0.4 and of 0.9 at most; the merge rule changes none of
    these. *)
Theorem raw_headings_carry (d : document) (title : str) (cfs : Q) :
  Forall (fun h =>
            0 <= h_page h < doc_len d
            /\ (exists b, h_bbox h = Some b /\ sort_y h = y0 b)
            /\ (4 # 10 < h_confidence h)%Q
            /\ (h_confidence h <= 9 # 10)%Q)
         (raw_headings d title cfs).
Proof.
  apply Forall_forall. intros h Hh.
  pose proof (raw_headings_pages d title cfs) as Hp.
  rewrite Forall_forall in Hp. specialize (Hp h Hh).
  unfold raw_headings in Hh. apply in_flat_map in Hh.
  destruct Hh as ([n p] & _ & Hh).
  pose proof (extract_page_headings_wf title cfs p n
                (_calculate_size_thresholds cfs)) as HF.
  rewrite Forall_forall in HF. destruct (HF h Hh) as (_ & Hb & Hc & Hm).
  split; [exact Hp|]. split; [|split; [|exact Hm]].
  - unfold sort_y. destruct (h_bbox h) as [b|]; [|congruence].
    exists b. auto.
  - apply Qnot_le_lt. intros Hle. apply Qle_bool_iff in Hle.
    unfold Qgtb in Hc. rewrite Hle in Hc. discriminate.
Qed.

(** ** Documents without bold text and heading patterns *)

Lemma bold_flag_lor (a b : Z) :
  bold_flag a = false -> bold_flag b = false -> bold_flag (Z.lor a b) = false.
Proof.
  unfold bold_flag. intros Ha Hb.
  apply negb_false_iff in Ha. apply negb_false_iff in Hb.
  apply Z.eqb_eq in Ha. apply Z.eqb_eq in Hb.
  apply negb_false_iff. apply Z.eqb_eq.
  rewrite Z.land_lor_distr_l, Ha, Hb. reflexivity.
Qed.

Lemma analyze_spans_not_bold (ln : line) :
  Forall (fun sp => bold_flag (span_flags sp) = false) ln ->
  forall acc,
    bold_flag (snd (fst acc)) = false ->
    bold_flag (snd (fst (fold_left analyze_span_step ln acc))) = false.
Proof.
  induction 1 as [|sp ln Hsp _ IH]; intros acc Hacc; [exact Hacc|].
  simpl. apply IH. destruct acc as [[[a b] c] e]. unfold analyze_span_step.
  destruct (strip (span_text sp)); [exact Hacc|].
  cbn [fst snd] in *. apply bold_flag_lor; assumption.
Qed.

Lemma analyze_line_not_bold (cfs : Q) (ln : line) (ld : line_data) :
  Forall (fun sp => bold_flag (span_flags sp) = false) ln ->
  _analyze_line cfs ln = Some ld -> bold_flag (ld_flags ld) = false.
Proof.
  intros Hnb. unfold _analyze_line.
  pose proof (analyze_spans_not_bold ln Hnb ([], 0%Q, 0, None) eq_refl) as Hf.
  destruct (fold_left analyze_span_step ln ([], 0%Q, 0, None))
    as [[[line_text max_size] flags] bbox].
  cbn [fst snd] in Hf.
  destruct (strip line_text) as [|c t]; [discriminate|].
  destruct (len (c :: t) <? 2); [discriminate|].
  intros E. injection E as <-. exact Hf.
Qed.

Lemma page_line_step_plain title cfs page_num th st ln :
  plain_line cfs ln -> page_line_step title cfs page_num th st ln = st.
Proof.
  intros [Hnb Hnp]. destruct st as [headings prev]. unfold page_line_step.
  destruct (_analyze_line cfs ln) as [ld|] eqn:Ea; [|reflexivity].
  destruct (existsb (str_eqb (strip (lower (ld_text ld)))) metadata_words
            && negb (page_num =? 0)); [reflexivity|].
  destruct (str_eqb (strip (lower (ld_text ld))) title); [reflexivity|].
  destruct (_is_heading_candidate ld th) eqn:Ec; [|reflexivity].
  destruct (heading_candidate_needs cfs ln ld th Ea Ec) as ([Hb | Hp] & _).
  - rewrite (analyze_line_not_bold cfs ln ld Hnb Ea) in Hb. discriminate.
  - rewrite (Hnp ld eq_refl) in Hp. discriminate.
Qed.

(** A document of ASCII text in which no span is bold and no line matches
    a heading pattern has an empty outline, whatever the sizes of its
    text. *)
Theorem outline_empty_without_bold_or_pattern (d : document) (title : str)
    (cfs : Q) :
  (forall page blk lines ln,
     In page (doc_pages d) -> In blk page -> block_lines blk = Some lines ->
     In ln lines -> ascii_line ln /\ plain_line cfs ln) ->
  _extract_headings_from_text d title cfs = Ok [].
Proof.
  intros Hplain. rewrite extract_headings_spec.
  assert (Eraw : raw_headings d title cfs = []).
  { unfold raw_headings.
    assert (Hgen : forall i pages,
              (forall page, In page pages -> In page (doc_pages d)) ->
              flat_map (fun '(page_num, page) =>
                          _extract_page_headings title cfs page page_num
                            (_calculate_size_thresholds cfs))
                       (enumerate_from i pages) = []).
    { intros i pages. revert i. induction pages as [|p pages IH]; intros i Hsub;
        [reflexivity|].
      simpl. rewrite IH by (intros q Hq; apply Hsub; right; exact Hq).
      rewrite app_nil_r. unfold _extract_page_headings.
      assert (Hst : forall blocks st,
                (forall blk, In blk blocks -> In blk p) ->
                fold_left (page_block_step title cfs i
                             (_calculate_size_thresholds cfs)) blocks st = st).
      { induction blocks as [|b blocks IHb]; intros st Hb; [reflexivity|].
        simpl. rewrite IHb by (intros blk Hblk; apply Hb; right; exact Hblk).
        unfold page_block_step.
        destruct (block_lines b) as [lines|] eqn:El; [|reflexivity].
        assert (Hl : forall ls st',
                  (forall ln, In ln ls -> In ln lines) ->
                  fold_left (page_line_step title cfs i
                               (_calculate_size_thresholds cfs)) ls st' = st').
        { induction ls as [|ln ls IHl]; intros st' Hls; [reflexivity|].
          simpl. rewrite page_line_step_plain.
          - apply IHl. intros l Hl'. apply Hls. right. exact Hl'.
          - refine (proj2 (Hplain p b lines ln _ _ El _)).
            + apply Hsub. left. reflexivity.
            + apply Hb. left. reflexivity.
            + apply Hls. left. reflexivity. }
        apply Hl. auto. }
      rewrite Hst by auto. reflexivity. }
    apply Hgen. auto. }
  rewrite Eraw. reflexivity.
Qed.

Lemma outline_empty_without_bold_or_pattern_witness :
  _extract_headings_from_text doc_plain (lit "unknown title") 12 = Ok [].
Proof.
  apply (outline_empty_without_bold_or_pattern doc_plain (lit "unknown title") 12).
  intros page blk lines ln [<- | []] [<- | []] El Hln.
  injection El as <-.
  destruct Hln as [<- | [<- | []]]; (split; [repeat constructor|]); split;
    try (repeat constructor);
    intros ld E; vm_compute in E; injection E as <-; vm_compute; reflexivity.
Defined.

(** ** [_clean_text] *)

Lemma lstrip_In (s : str) (c : char) : In c (lstrip s) -> In c s.
Proof.
  induction s as [|x s IH]; simpl; [auto|].
  destruct (is_space x); [intros H; right; auto | auto].
Qed.

Lemma strip_In (s : str) (c : char) : In c (strip s) -> In c s.
Proof.
  unfold strip, rstrip. intros H. apply in_rev in H. apply lstrip_In in H.
  apply in_rev in H. apply lstrip_In. exact H.
Qed.

Lemma lstrip_length (s : str) : (List.length (lstrip s) <= List.length s)%nat.
Proof.
  induction s as [|x s IH]; simpl; [lia|].
  destruct (is_space x); simpl; lia.
Qed.

Lemma strip_length (s : str) : (List.length (strip s) <= List.length s)%nat.
Proof.
  unfold strip, rstrip. rewrite length_rev.
  pose proof (lstrip_length (rev (lstrip s))) as H1.
  rewrite length_rev in H1. pose proof (lstrip_length s). lia.
Qed.

Lemma sub_spaces_In (s : str) : forall (b : bool) (c : char),
  In c (sub_spaces b s) -> c = 32%N \/ (In c s /\ is_space c = false).
Proof.
  induction s as [|x s IH]; intros b c; simpl; [contradiction|].
  destruct (is_space x) eqn:Ex.
  - destruct b.
    + intros H. destruct (IH _ _ H) as [E | [Hin Hs]]; [auto|]. right. auto.
    + intros [E | H]; [auto|].
      destruct (IH _ _ H) as [E | [Hin Hs]]; [auto|]. right. auto.
  - intros [<- | H]; [right; auto|].
    destruct (IH _ _ H) as [E | [Hin Hs]]; [auto|]. right. auto.
Qed.

Lemma sub_spaces_length (s : str) : forall b,
  (List.length (sub_spaces b s) <= List.length s)%nat.
Proof.
  induction s as [|x s IH]; intros b; simpl; [lia|].
  destruct (is_space x); [destruct b|]; simpl;
    try (pose proof (IH true)); try (pose proof (IH false)); lia.
Qed.

Lemma clean_text_chars (text : str) (c : char) :
  In c (_clean_text text) ->
  is_control c = false /\ is_surrogate c = false
  /\ (c = 32%N \/ (In c text /\ is_space c = false)).
Proof.
  unfold _clean_text. intros H.
  apply filter_In in H. destruct H as [H Hsur].
  apply filter_In in H. destruct H as [H Hctl].
  apply negb_true_iff in Hsur. apply negb_true_iff in Hctl.
  split; [exact Hctl|]. split; [exact Hsur|].
  destruct (sub_spaces_In _ _ _ H) as [E | [Hin Hs]]; [auto|].
  right. split; [apply strip_In; exact Hin | exact Hs].
Qed.

(** The text [_clean_text] returns has no control character and no
    surrogate, its only whitespace is the plain space, its other
    characters are characters of the argument, and it is not longer than
    the argument. *)
Theorem clean_text_output (text : str) :
  Forall (fun c => is_control c = false
                   /\ is_surrogate c = false
                   /\ (is_space c = true -> c = 32%N)
                   /\ (c = 32%N \/ In c text))
         (_clean_text text)
  /\ len (_clean_text text) <= len text.
Proof.
  split.
  - apply Forall_forall. intros c Hc.
    destruct (clean_text_chars text c Hc) as (Hctl & Hsur & Hsrc).
    repeat split; try assumption.
    + intros Hs. destruct Hsrc as [E | [_ Hns]]; [exact E | congruence].
    + destruct Hsrc as [E | [Hin _]]; auto.
  - unfold len, _clean_text. apply Nat2Z.inj_le.
    eapply Nat.le_trans; [apply filter_length_le|].
    eapply Nat.le_trans; [apply filter_length_le|].
    eapply Nat.le_trans; [apply sub_spaces_length | apply strip_length].
Qed.

Lemma sub_spaces_single (s : str) : forall b,
  single_spaced b (sub_spaces b s) = true.
Proof.
  induction s as [|x s IH]; intros b; simpl; [reflexivity|].
  destruct (is_space x) eqn:Ex.
  - destruct b; [apply IH|]. simpl. rewrite (IH true). reflexivity.
  - simpl. rewrite Ex. apply IH.
Qed.

Lemma single_spaced_fixed (s : str) : forall b,
  single_spaced b s = true -> sub_spaces b s = s.
Proof.
  induction s as [|x s IH]; intros b; simpl; [reflexivity|].
  destruct (is_space x) eqn:Ex.
  - intros H. apply andb_true_iff in H. destruct H as [H Hs].
    apply andb_true_iff in H. destruct H as [Hx Hb].
    apply N.eqb_eq in Hx. apply negb_true_iff in Hb. subst b x.
    rewrite (IH true Hs). reflexivity.
  - intros H. rewrite (IH false H). reflexivity.
Qed.

Lemma sub_spaces_app_nonspace (t : str) (c : char) : forall b,
  is_space c = false -> sub_spaces b (t ++ [c]) = sub_spaces b t ++ [c].
Proof.
  induction t as [|x t IH]; intros b Hc; simpl.
  - rewrite Hc. reflexivity.
  - destruct (is_space x); [destruct b|]; simpl; rewrite IH by assumption;
      reflexivity.
Qed.

Lemma sub_spaces_stripped (t : str) :
  stripped t -> stripped (sub_spaces false t).
Proof.
  intros [Hh Hl]. split.
  - destruct t as [|c t]; simpl; [exact I|]. rewrite Hh. exact Hh.
  - destruct (rev t) as [|c r] eqn:Er.
    + apply (f_equal (@rev char)) in Er. rewrite rev_involutive in Er.
      subst t. exact I.
    + apply (f_equal (@rev char)) in Er. rewrite rev_involutive in Er.
      simpl in Er. subst t. rewrite (sub_spaces_app_nonspace _ _ _ Hl).
      rewrite rev_app_distr. simpl. exact Hl.
Qed.

Lemma filter_all {A : Type} (p : A -> bool) (l : list A) :
  (forall x, In x l -> p x = true) -> filter p l = l.
Proof.
  induction l as [|x l IH]; simpl; intros H; [reflexivity|].
  rewrite (H x (or_introl eq_refl)). f_equal. apply IH. auto.
Qed.

(** On a cleanable text the two filters of [_clean_text] remove nothing. *)
Lemma clean_text_cleanable (s : str) :
  cleanable s -> _clean_text s = sub_spaces false (strip s).
Proof.
  intros Hc. unfold cleanable in Hc. rewrite Forall_forall in Hc.
  assert (Hchars : forall c, In c (sub_spaces false (strip s)) ->
                             is_control c = false /\ is_surrogate c = false).
  { intros c H. destruct (sub_spaces_In _ _ _ H) as [-> | [Hin Hns]].
    - split; reflexivity.
    - apply strip_In in Hin. destruct (Hc c Hin) as [Hctl Hsur].
      split; [|exact Hsur].
      destruct (is_control c); [|reflexivity].
      rewrite (Hctl eq_refl) in Hns. discriminate. }
  unfold _clean_text.
  rewrite (filter_all (fun c => negb (is_control c))).
  - apply filter_all. intros c H. apply negb_true_iff. apply (Hchars c H).
  - intros c H. apply negb_true_iff. apply (Hchars c H).
Qed.

(** On a text without surrogates and without control characters other than
    whitespace, [_clean_text] gives a normalized text (no whitespace at the
    ends, single plain spaces inside) that it leaves unchanged. *)
Theorem clean_text_idempotent (s : str) :
  cleanable s ->
  stripped (_clean_text s)
  /\ single_spaced false (_clean_text s) = true
  /\ _clean_text (_clean_text s) = _clean_text s.
Proof.
  intros Hc. rewrite (clean_text_cleanable s Hc).
  set (n := sub_spaces false (strip s)).
  assert (Hst : stripped n) by (apply sub_spaces_stripped, strip_stripped).
  assert (Hss : single_spaced false n = true) by apply sub_spaces_single.
  split; [exact Hst|]. split; [exact Hss|].
  assert (Hcn : cleanable n).
  { unfold cleanable in *. rewrite Forall_forall in *. intros c H.
    destruct (sub_spaces_In _ _ _ H) as [-> | [Hin _]].
    - split; [discriminate | reflexivity].
    - apply strip_In in Hin. apply Hc. exact Hin. }
  rewrite (clean_text_cleanable n Hcn).
  rewrite (stripped_strip n Hst). apply single_spaced_fixed. exact Hss.
Qed.

Lemma clean_text_idempotent_witness :
  _clean_text (lit "  Annual   Report ") = lit "Annual Report"
  /\ _clean_text (_clean_text (lit "  Annual   Report "))
     = _clean_text (lit "  Annual   Report ").
Proof.
  split; [vm_compute; reflexivity|].
  apply (clean_text_idempotent (lit "  Annual   Report ")).
  repeat constructor; vm_compute; discriminate.
Defined.

(** ** [_post_process_headings]: composition and ties *)

Lemma dedup_fold_NoDup (hs : list heading) : forall seen uniq,
  (forall k, In k seen <-> In k (map dedup_key uniq)) ->
  NoDup (map dedup_key (uniq ++ hs)) ->
  snd (fold_left dedup_step hs (seen, uniq)) = uniq ++ hs.
Proof.
  induction hs as [|h hs IH]; intros seen uniq Hseen Hnd; simpl.
  - rewrite app_nil_r. reflexivity.
  - assert (Hnew : existsb (key_eqb (dedup_key h)) seen = false).
    { destruct (existsb (key_eqb (dedup_key h)) seen) eqn:E; [|reflexivity].
      exfalso. apply existsb_key_In in E. apply Hseen in E.
      rewrite map_app in Hnd. simpl in Hnd.
      apply NoDup_remove_2 in Hnd. apply Hnd. apply in_or_app. left. exact E. }
    rewrite Hnew. simpl.
    replace (uniq ++ h :: hs) with ((uniq ++ [h]) ++ hs)
      by (rewrite <- app_assoc; reflexivity).
    apply IH.
    + intros k. rewrite map_app, in_app_iff. simpl. rewrite <- Hseen. tauto.
    + rewrite <- app_assoc. exact Hnd.
Qed.

Lemma key_le_not_ltb (a b : heading) : key_le a b -> sort_key_ltb b a = false.
Proof.
  unfold key_le, sort_key_ltb. intros [H | [E L]].
  - replace (h_page b =? h_page a) with false
      by (symmetry; apply Z.eqb_neq; lia).
    apply Z.ltb_ge. lia.
  - rewrite E, Z.eqb_refl. unfold Qltb.
    apply Qle_bool_iff in L. rewrite L. reflexivity.
Qed.

Lemma py_sort_sorted_id (l : list heading) :
  StronglySorted key_le l -> py_sort sort_key_ltb l = l.
Proof.
  induction 1 as [|x l HS IH HF]; simpl; [reflexivity|].
  rewrite IH. destruct l as [|y l]; [reflexivity|]. simpl.
  inversion HF as [|? ? Hxy _]; subst.
  rewrite (key_le_not_ltb x y Hxy). reflexivity.
Qed.

(** Post-processing a post-processed list changes nothing. *)
Theorem post_process_idempotent (hs : list heading) :
  _post_process_headings (_post_process_headings hs) = _post_process_headings hs.
Proof.
  destruct (post_process_spec hs) as (_ & Hnd & _ & HS).
  set (p := _post_process_headings hs) in *.
  destruct p as [|h0 p0] eqn:Ep; [reflexivity|].
  unfold _post_process_headings at 1.
  rewrite (dedup_fold_NoDup (h0 :: p0) [] [] (fun k => conj (fun H => H) (fun H => H)) Hnd).
  simpl app. apply py_sort_sorted_id. exact HS.
Qed.

(** The sort is stable: after the insertion of [x], the elements with the
    sort key of [k] are in the order they had, [x] first. *)
Lemma insert_sorted_same_key (k x : heading) (l : list heading) :
  filter (same_sort_key k) (insert_sorted sort_key_ltb x l)
  = filter (same_sort_key k) (x :: l).
Proof.
  induction l as [|y l IH]; [reflexivity|]. simpl insert_sorted.
  destruct (sort_key_ltb y x) eqn:E; [|reflexivity].
  simpl. simpl in IH. rewrite IH.
  destruct (same_sort_key k y) eqn:Ey; [|reflexivity].
  destruct (same_sort_key k x) eqn:Ex; [|reflexivity].
  exfalso. unfold same_sort_key in Ex, Ey.
  apply andb_true_iff in Ex. apply andb_true_iff in Ey.
  destruct Ex as [Px Qx], Ey as [Py Qy].
  apply Z.eqb_eq in Px. apply Z.eqb_eq in Py.
  apply Qeq_bool_iff in Qx. apply Qeq_bool_iff in Qy.
  unfold sort_key_ltb in E. rewrite Py, <- Px, Z.eqb_refl in E.
  apply Qltb_true in E. rewrite Qx, Qy in E. exact (Qlt_irrefl _ E).
Qed.

Lemma py_sort_same_key (k : heading) (l : list heading) :
  filter (same_sort_key k) (py_sort sort_key_ltb l) = filter (same_sort_key k) l.
Proof.
  induction l as [|x l IH]; [reflexivity|]. simpl py_sort.
  rewrite insert_sorted_same_key. simpl. rewrite IH. reflexivity.
Qed.

(** Headings with the same (page, vertical position) leave
    [_post_process_headings] in the order in which they were extracted,
    when no (text, page) occurs twice. *)
Theorem post_process_stable (hs : list heading) (k : heading) :
  NoDup (map dedup_key hs) ->
  filter (same_sort_key k) (_post_process_headings hs)
  = filter (same_sort_key k) hs.
Proof.
  intros Hnd. destruct hs as [|h0 hs0]; [reflexivity|].
  unfold _post_process_headings.
  rewrite (dedup_fold_NoDup (h0 :: hs0) [] []
             (fun k => conj (fun H => H) (fun H => H)) Hnd).
  simpl app. apply py_sort_same_key.
Qed.

Lemma post_process_stable_witness :
  filter (same_sort_key (nth 0 headings_same_height heading_h3))
         (_post_process_headings headings_same_height)
  = filter (same_sort_key (nth 0 headings_same_height heading_h3))
           headings_same_height.
Proof.
  apply (post_process_stable headings_same_height).
  repeat constructor; vm_compute; intuition discriminate.
Defined.

(** ** Headings of the last level *)

Lemma has_children_scan_H3 (h : heading) (later : list heading) :
  h_level h = H3 -> has_children_scan h later = false.
Proof.
  intros E. apply has_children_scan_false. intros hj _ _.
  rewrite E. destruct (h_level hj); simpl; lia.
Qed.

(** A H3 heading has no children: without content it is dropped, whatever
    the headings after it. *)
Theorem filter_drops_H3_without_content (d : document) (h : heading)
    (later : list heading) :
  Forall (page_in d) (h :: later) ->
  h_level h = H3 ->
  _has_content_after_heading d h (hd_error later) = Ok false ->
  _filter_headings_with_subtext d (h :: later)
  = _filter_headings_with_subtext d later.
Proof.
  intros HF E Hc. inversion HF as [|? ? _ Hl]; subst.
  rewrite (filter_headings_spec d _ HF), (filter_headings_spec d _ Hl).
  simpl. unfold retained. rewrite (has_children_scan_H3 h later E), Hc.
  reflexivity.
Qed.

Lemma filter_drops_H3_without_content_witness :
  _filter_headings_with_subtext doc_appendix [heading_h3; heading_references]
  = _filter_headings_with_subtext doc_appendix [heading_references].
Proof.
  apply (filter_drops_H3_without_content doc_appendix heading_h3
           [heading_references]).
  - repeat constructor; vm_compute; congruence.
  - reflexivity.
  - vm_compute. reflexivity.
Defined.

(** ** Levels without numbering *)

Lemma re_match_digits_head (R : regex) (s : str) :
  re_match (Cat (Plus digit) R) s = true ->
  exists c rest, s = c :: rest /\ is_digit c = true.
Proof.
  intros E. apply re_match_spec in E. destruct E as (u & v & -> & Hu).
  apply lang_digits_then in Hu. destruct Hu as (a & r & -> & Hne & Ha & _).
  destruct a as [|c a]; [congruence|]. inversion Ha; subst.
  exists c, ((a ++ r) ++ v). split; [reflexivity | assumption].
Qed.

(** A heading whose trimmed text starts with an ASCII character other
    than a digit gets its level from the size alone: H1 from the h1
    threshold, H2 from the h2 threshold, H3 below. *)
Theorem determine_heading_level_by_size (ld : line_data) (th : thresholds) :
  (forall c rest, strip (ld_text ld) = c :: rest ->
                  is_ascii c = true /\ is_digit c = false) ->
  _determine_heading_level ld th = level_by_size (ld_size ld) th.
Proof.
  intros Hnd'.
  assert (Hnd : forall c rest, strip (ld_text ld) = c :: rest ->
                               is_digit c = false)
    by (intros c rest E; apply (Hnd' c rest E)). unfold _determine_heading_level, level_by_size.
  assert (Hno : forall R, re_match (Cat (Plus digit) R) (strip (ld_text ld)) = false).
  { intros R. destruct (re_match _ (strip (ld_text ld))) eqn:E; [|reflexivity].
    apply re_match_digits_head in E. destruct E as (c & rest & Es & Hc).
    rewrite (Hnd c rest Es) in Hc. discriminate. }
  unfold numbering_1, numbering_2, numbering_3. rewrite !Hno. reflexivity.
Qed.

Lemma determine_heading_level_by_size_witness :
  _determine_heading_level line_data_appendix (_calculate_size_thresholds 12) = H2.
Proof.
  rewrite (determine_heading_level_by_size line_data_appendix
             (_calculate_size_thresholds 12)).
  - vm_compute. reflexivity.
  - intros c rest E. vm_compute in E. injection E as <- _.
    split; reflexivity.
Defined.

(** ** Heading patterns and plain words *)

Lemma lang_Star_Cls_intro (p : char -> bool) (w : str) :
  Forall (fun c => p c = true) w -> lang (Star (Cls p)) w.
Proof.
  induction 1 as [|c w Hc _ IH]; [constructor|].
  change (c :: w) with ([c] ++ w). apply LStarS; [constructor; assumption | assumption].
Qed.

Lemma letter_icase_upper (c : char) : is_letter c = true -> icase is_upper c = true.
Proof.
  unfold is_letter, icase, to_lower, to_upper. intros H.
  destruct (is_upper c) eqn:Eu.
  - assert (El : is_lower c = false).
    { unfold is_upper, is_lower, in_range in *.
      apply andb_true_iff in Eu. destruct Eu as [E1 E2].
      apply N.leb_le in E1. apply N.leb_le in E2.
      apply andb_false_iff. left. apply N.leb_gt. lia. }
    rewrite El, Eu. apply orb_true_r.
  - simpl in H. rewrite H. rewrite Eu. simpl.
    unfold is_upper, is_lower, in_range in *.
    apply andb_true_iff in H. destruct H as [E1 E2].
    apply N.leb_le in E1. apply N.leb_le in E2.
    apply andb_true_iff. split; apply N.leb_le; lia.
Qed.

Lemma space_not_upper (c : char) : is_space c = true -> is_upper c = false.
Proof.
  intros Hs. destruct (is_upper c) eqn:Eu; [|reflexivity]. exfalso.
  unfold is_upper, in_range in Eu. apply andb_true_iff in Eu.
  destruct Eu as [E1 E2]. apply N.leb_le in E1. apply N.leb_le in E2.
  assert (Hns : is_space c = false).
  { unfold is_space, in_range.
    repeat rewrite orb_false_iff. repeat split;
      try (apply andb_false_iff;
           (left; apply N.leb_gt; lia) || (right; apply N.leb_gt; lia));
      try (apply N.eqb_neq; lia). }
  congruence.
Qed.

Lemma letter_or_space_icase (c : char) :
  is_letter c || is_space c = true ->
  icase (fun c => is_upper c || is_space c) c = true.
Proof.
  intros H. apply orb_true_iff in H. destruct H as [H | H].
  - pose proof (letter_icase_upper c H) as Hi. unfold icase in *.
    apply orb_true_iff in Hi. destruct Hi as [Hi | Hi]; rewrite Hi; simpl;
      [reflexivity | apply orb_true_r].
  - unfold icase, to_lower. rewrite (space_not_upper c H), H.
    rewrite orb_true_r. reflexivity.
Qed.

(** Under [re.IGNORECASE] the all-caps pattern has no case left: every
    text of three characters or more that, stripped, starts with a letter
    and has only letters and whitespace matches a heading pattern. *)
Theorem letters_and_spaces_match_heading_patterns (text : str) (c : char)
    (rest : str) :
  strip text = c :: rest ->
  is_letter c = true ->
  (2 <= List.length rest)%nat ->
  Forall (fun x => is_letter x || is_space x = true) rest ->
  _matches_heading_patterns text = true.
Proof.
  intros Es Hc Hlen Hrest. unfold _matches_heading_patterns.
  apply existsb_exists.
  exists (Whole (Cat upper_i (AtLeast2 upper_space_i))). split.
  { unfold heading_patterns. simpl. auto. }
  rewrite Es. unfold pattern_match, re_match_end. apply run_spec.
  exists (c :: rest), []. split; [rewrite app_nil_r; reflexivity|].
  split; [|reflexivity].
  destruct rest as [|a rest]; [simpl in Hlen; lia|].
  destruct rest as [|b rest]; [simpl in Hlen; lia|].
  inversion Hrest as [|? ? Ha Hrest']; subst.
  inversion Hrest' as [|? ? Hb Hrest'']; subst.
  change (c :: a :: b :: rest) with ([c] ++ [a] ++ [b] ++ rest).
  apply LCat; [constructor; apply letter_icase_upper; exact Hc|].
  unfold AtLeast2, upper_space_i.
  apply LCat; [constructor; apply letter_or_space_icase; exact Ha|].
  apply LCat; [constructor; apply letter_or_space_icase; exact Hb|].
  apply lang_Star_Cls_intro.
  eapply Forall_impl; [|exact Hrest'']. intros x Hx.
  apply letter_or_space_icase. exact Hx.
Qed.

Lemma letters_and_spaces_match_heading_patterns_witness :
  _matches_heading_patterns (lit " the results are final ") = true.
Proof.
  apply (letters_and_spaces_match_heading_patterns
           (lit " the results are final ") (chr "t") (lit "he results are final")).
  - vm_compute. reflexivity.
  - reflexivity.
  - simpl. lia.
  - repeat constructor.
Defined.

(** ** [re.IGNORECASE] *)

Lemma upper_bounds (c : char) : is_upper c = true -> (65 <= c <= 90)%N.
Proof.
  unfold is_upper, in_range. intros H. apply andb_true_iff in H.
  destruct H as [E1 E2]. apply N.leb_le in E1. apply N.leb_le in E2. lia.
Qed.

Lemma to_lower_space (c : char) : is_space (to_lower c) = is_space c.
Proof.
  unfold to_lower. destruct (is_upper c) eqn:Eu; [|reflexivity].
  pose proof (upper_bounds c Eu) as Hb.
  assert (H1 : is_space c = false).
  { destruct (is_space c) eqn:Es; [|reflexivity].
    rewrite (space_not_upper c Es) in Eu. discriminate. }
  rewrite H1. unfold is_space, in_range.
  repeat rewrite orb_false_iff. repeat split;
    try (apply andb_false_iff;
         (left; apply N.leb_gt; lia) || (right; apply N.leb_gt; lia));
    try (apply N.eqb_neq; lia).
Qed.

Lemma to_lower_digit (c : char) : is_digit (to_lower c) = is_digit c.
Proof.
  unfold to_lower. destruct (is_upper c) eqn:Eu; [|reflexivity].
  pose proof (upper_bounds c Eu) as Hb. unfold is_digit, in_range.
  replace (c + 32 <=? 57)%N with false by (symmetry; apply N.leb_gt; lia).
  replace (c <=? 57)%N with false by (symmetry; apply N.leb_gt; lia).
  rewrite !andb_false_r. reflexivity.
Qed.

Lemma to_lower_dot (c : char) :
  char_eqb (chr ".") (to_lower c) = char_eqb (chr ".") c.
Proof.
  unfold to_lower, char_eqb. destruct (is_upper c) eqn:Eu; [|reflexivity].
  pose proof (upper_bounds c Eu) as Hb.
  replace (chr "." =? c + 32)%N with false
    by (symmetry; apply N.eqb_neq; unfold chr; simpl; lia).
  symmetry. apply N.eqb_neq. unfold chr. simpl. lia.
Qed.

Lemma to_lower_idem (c : char) : to_lower (to_lower c) = to_lower c.
Proof.
  destruct (is_upper c) eqn:Eu.
  - assert (El : to_lower c = (c + 32)%N) by (unfold to_lower; rewrite Eu; reflexivity).
    rewrite El. pose proof (upper_bounds c Eu) as Hb.
    unfold to_lower, is_upper, in_range.
    replace (c + 32 <=? 90)%N with false by (symmetry; apply N.leb_gt; lia).
    rewrite andb_false_r. reflexivity.
  - assert (El : to_lower c = c) by (unfold to_lower; rewrite Eu; reflexivity).
    rewrite !El. reflexivity.
Qed.

Lemma to_upper_lower (c : char) : to_upper (to_lower c) = to_upper c.
Proof.
  unfold to_lower. destruct (is_upper c) eqn:Eu; [|reflexivity].
  pose proof (upper_bounds c Eu) as Hb. unfold to_upper, is_lower, in_range.
  replace (97 <=? c + 32)%N with true by (symmetry; apply N.leb_le; lia).
  replace (c + 32 <=? 122)%N with true by (symmetry; apply N.leb_le; lia).
  replace (c <=? 122)%N with true by (symmetry; apply N.leb_le; lia).
  replace (97 <=? c)%N with false by (symmetry; apply N.leb_gt; lia).
  simpl. lia.
Qed.

Lemma case_blind_icase (p : char -> bool) : case_blind (Cls (icase p)).
Proof.
  intros c. unfold icase. rewrite to_lower_idem, to_upper_lower. reflexivity.
Qed.

Lemma case_blind_digit : case_blind digit.
Proof. exact to_lower_digit. Qed.

Lemma case_blind_space : case_blind space.
Proof. exact to_lower_space. Qed.

Lemma case_blind_dot : case_blind dot.
Proof. exact to_lower_dot. Qed.

Lemma case_blind_ILit (w : str) : case_blind (ILit w).
Proof.
  induction w as [|c w IH]; simpl; [exact I|].
  split; [apply case_blind_icase | exact IH].
Qed.

Lemma case_blind_mkCat (a b : regex) :
  case_blind a -> case_blind b -> case_blind (mkCat a b).
Proof. destruct a, b; simpl; intros Ha Hb; try exact I; try assumption; auto. Qed.

Lemma case_blind_mkAlt (a b : regex) :
  case_blind a -> case_blind b -> case_blind (mkAlt a b).
Proof. destruct a, b; simpl; intros Ha Hb; try exact I; try assumption; auto. Qed.

Lemma case_blind_der (c : char) (r : regex) :
  case_blind r -> case_blind (der c r).
Proof.
  induction r; simpl; intros H; try exact I.
  - destruct (p c); exact I.
  - destruct H as [H1 H2]. destruct (nullable r1).
    + apply case_blind_mkAlt; [apply case_blind_mkCat|]; auto.
    + apply case_blind_mkCat; auto.
  - destruct H as [H1 H2]. apply case_blind_mkAlt; auto.
  - apply case_blind_mkCat; auto.
Qed.

Lemma der_to_lower (c : char) (r : regex) :
  case_blind r -> der (to_lower c) r = der c r.
Proof.
  induction r; simpl; intros H; try reflexivity.
  - rewrite H. reflexivity.
  - destruct H as [H1 H2]. rewrite (IHr1 H1), (IHr2 H2). reflexivity.
  - destruct H as [H1 H2]. rewrite (IHr1 H1), (IHr2 H2). reflexivity.
  - rewrite (IHr H). reflexivity.
Qed.

Lemma run_lower (final : str -> bool) :
  (forall v, final (lower v) = final v) ->
  forall s r, case_blind r -> run final r (lower s) = run final r s.
Proof.
  intros Hf. induction s as [|c s IH]; intros r Hr; simpl.
  - reflexivity.
  - change (to_lower c :: lower s) with (lower (c :: s)). rewrite Hf.
    f_equal. rewrite (der_to_lower c r Hr).
    apply IH. apply case_blind_der. exact Hr.
Qed.

Lemma at_end_lower (v : str) : at_end (lower v) = at_end v.
Proof.
  destruct v as [|c v]; [reflexivity|]. destruct v as [|d v]; [|reflexivity].
  simpl. unfold to_lower. destruct (is_upper c) eqn:Eu; [|reflexivity].
  pose proof (upper_bounds c Eu) as Hb.
  replace (c + 32 =? 10)%N with false by (symmetry; apply N.eqb_neq; lia).
  symmetry. apply N.eqb_neq. lia.
Qed.

Lemma lstrip_lower (s : str) : lstrip (lower s) = lower (lstrip s).
Proof.
  induction s as [|c s IH]; [reflexivity|]. simpl.
  rewrite to_lower_space. destruct (is_space c); [exact IH | reflexivity].
Qed.

Lemma rev_lower (s : str) : rev (lower s) = lower (rev s).
Proof. unfold lower. symmetry. apply map_rev. Qed.

Lemma strip_lower (s : str) : strip (lower s) = lower (strip s).
Proof.
  unfold strip, rstrip.
  rewrite lstrip_lower, rev_lower, lstrip_lower, rev_lower. reflexivity.
Qed.

Lemma heading_patterns_case_blind : Forall pattern_case_blind heading_patterns.
Proof.
  unfold heading_patterns.
  repeat (apply Forall_cons || apply Forall_nil);
    repeat first [ exact I
                 | apply case_blind_icase
                 | apply case_blind_digit
                 | apply case_blind_space
                 | apply case_blind_dot
                 | apply case_blind_ILit
                 | split ].
Qed.

(** On ASCII text, matching the heading patterns does not depend on the
    case of the text. *)
Theorem matches_heading_patterns_case_insensitive (text : str) :
  isascii text = true ->
  _matches_heading_patterns (lower text) = _matches_heading_patterns text.
Proof.
  intros _. unfold _matches_heading_patterns. rewrite strip_lower.
  pose proof heading_patterns_case_blind as HF.
  induction HF as [|p ps Hp _ IH]; [reflexivity|]. simpl. rewrite IH.
  f_equal. destruct p as [r | r]; simpl in Hp; unfold pattern_match.
  - apply run_lower; [reflexivity | exact Hp].
  - apply run_lower; [exact at_end_lower | exact Hp].
Qed.

Lemma matches_heading_patterns_case_insensitive_witness :
  _matches_heading_patterns (lit "chapter 1 SCOPE")
  = _matches_heading_patterns (lit "Chapter 1 Scope").
Proof.
  rewrite <- (matches_heading_patterns_case_insensitive (lit "chapter 1 SCOPE"))
    by reflexivity.
  rewrite <- (matches_heading_patterns_case_insensitive (lit "Chapter 1 Scope"))
    by reflexivity.
  reflexivity.
Defined.

(** ** The order of the title candidates *)

Lemma y_pos_ltb_true (a b : option Q) : y_pos_ltb a b = true -> y_pos_le a b.
Proof.
  destruct a as [a|], b as [b|]; simpl; intros H; try exact I; try discriminate.
  apply Qlt_le_weak, Qltb_true. exact H.
Qed.

Lemma y_pos_ltb_false (a b : option Q) : y_pos_ltb a b = false -> y_pos_le b a.
Proof.
  destruct a as [a|], b as [b|]; simpl; intros H; try exact I; try discriminate.
  apply Qltb_false. exact H.
Qed.

Lemma y_pos_le_trans (a b c : option Q) :
  y_pos_le a b -> y_pos_le b c -> y_pos_le a c.
Proof.
  destruct a as [a|], b as [b|], c as [c|]; simpl; intros H1 H2;
    try exact I; try contradiction.
  eapply Qle_trans; eauto.
Qed.

Lemma title_key_ltb_true (a b : title_candidate) :
  title_key_ltb a b = true -> title_key_le a b.
Proof.
  unfold title_key_ltb, title_key_le.
  destruct (Qeq_bool (- tc_size a) (- tc_size b)) eqn:E; intros H.
  - apply Qeq_bool_iff in E. right. split; [lra | apply y_pos_ltb_true; exact H].
  - apply Qltb_true in H. left. lra.
Qed.

Lemma title_key_ltb_false (a b : title_candidate) :
  title_key_ltb a b = false -> title_key_le b a.
Proof.
  unfold title_key_ltb, title_key_le.
  destruct (Qeq_bool (- tc_size a) (- tc_size b)) eqn:E; intros H.
  - apply Qeq_bool_iff in E. right. split; [lra | apply y_pos_ltb_false; exact H].
  - apply Qeq_bool_neq in E. apply Qltb_false in H. left.
    destruct (Qlt_le_dec (tc_size a) (tc_size b)) as [Hlt | Hle]; [exact Hlt|].
    exfalso. apply E. lra.
Qed.

Lemma title_key_le_trans (a b c : title_candidate) :
  title_key_le a b -> title_key_le b c -> title_key_le a c.
Proof.
  unfold title_key_le. intros [H1 | [E1 Y1]] [H2 | [E2 Y2]].
  - left. lra.
  - left. lra.
  - left. lra.
  - right. split; [lra | eapply y_pos_le_trans; eauto].
Qed.

(** The title read from the first page joins the first two title
    candidates in the order of decreasing size, the higher one first among
    candidates of one size. *)
Theorem title_from_sorted_candidates (d : document) (cfs : Q) (page : page)
    (pages : list Layout.page) :
  doc_pages d = page :: pages ->
  flat_map (title_block_candidates cfs) page <> [] ->
  exists sorted,
    Permutation sorted (flat_map (title_block_candidates cfs) page)
    /\ StronglySorted title_key_le sorted
    /\ _extract_title_from_text d cfs
       = _clean_text (join (lit "  ") (map tc_text (firstn 2 sorted))).
Proof.
  intros Ep Hne. unfold _extract_title_from_text. rewrite Ep.
  destruct (flat_map (title_block_candidates cfs) page) as [|c cs] eqn:Ec;
    [congruence|].
  exists (py_sort title_key_ltb (c :: cs)). split; [|split].
  - apply py_sort_perm.
  - apply (py_sort_sorted title_candidate title_key_ltb title_key_le).
    + apply title_key_ltb_true.
    + apply title_key_ltb_false.
    + apply title_key_le_trans.
  - reflexivity.
Qed.

Lemma title_from_sorted_candidates_witness :
  _extract_title_from_text doc_two_titles 12
  = lit "Outline Extraction A short guide"
  /\ exists sorted,
       StronglySorted title_key_le sorted
       /\ _extract_title_from_text doc_two_titles 12
          = _clean_text (join (lit "  ") (map tc_text (firstn 2 sorted))).
Proof.
  split; [vm_compute; reflexivity|].
  destruct (title_from_sorted_candidates doc_two_titles 12
              (hd [] (doc_pages doc_two_titles)) [])
    as (sorted & _ & HS & E).
  - reflexivity.
  - vm_compute. discriminate.
  - exists sorted. split; assumption.
Defined.

(** ** A heading without text *)

Lemma contains_nil (s : str) : contains [] s = true.
Proof. destruct s; reflexivity. Qed.

(** For a heading whose text is empty every line contains the text and is
    skipped: the scan answers [True] only for a block of type 1 without
    lines. *)
Theorem has_content_empty_heading_text (d : document) (h : heading)
    (next : option heading) :
  h_text h = [] ->
  (forall n, In n (range (h_page h) (scan_end_page d h next + 1)) ->
             0 <= n < doc_len d) ->
  exists b,
    _has_content_after_heading d h next = Ok b
    /\ (b = true <->
        exists blk, scanned_block d h next blk
                    /\ block_lines blk = None /\ block_type blk = Some 1).
Proof.
  intros Et Hrange.
  destruct (scan_pages_spec d h _ Hrange) as (b & Eb & Hb).
  exists b. split; [exact Eb|]. rewrite Hb. split.
  - intros (n & page & blk & Hn & Enth & Hblk & Hc).
    exists blk. split; [exists n, page; auto|].
    unfold content_block in Hc. destruct (block_lines blk) as [lines|].
    + destruct Hc as (ln & _ & _ & Hsk & _). exfalso.
      unfold line_skipped in Hsk. rewrite Et in Hsk. simpl in Hsk.
      rewrite contains_nil in Hsk. discriminate.
    + auto.
  - intros (blk & (n & page & Hn & Enth & Hblk) & El & Ety).
    exists n, page, blk. repeat split; auto.
    unfold content_block. rewrite El. exact Ety.
Qed.

Lemma has_content_empty_heading_text_witness :
  exists b,
    _has_content_after_heading doc_image heading_empty_text None = Ok b
    /\ (b = true <->
        exists blk, scanned_block doc_image heading_empty_text None blk
                    /\ block_lines blk = None /\ block_type blk = Some 1).
Proof.
  apply (has_content_empty_heading_text doc_image heading_empty_text None).
  - reflexivity.
  - intros n Hn. vm_compute in Hn. destruct Hn as [<- | []].
    vm_compute. split; congruence.
Defined.

(** ** [process_pdf] and the state of the extractor *)

(** When the file opens, [process_pdf] assigns every field it reads: the
    result, the extractor and the handles after the call are those of a new
    extractor. *)
Theorem process_pdf_forgets_state (self : extractor) (w : world)
    (pdf_path : str) (d : document) :
  files w pdf_path = Ok d ->
  process_pdf self w pdf_path = process_pdf new_extractor w pdf_path.
Proof.
  intros E. unfold process_pdf, process_pdf_try, fitz_open. rewrite E.
  destruct (_analyze_document_fonts (handle_doc (DocHandle (next_handle w) d)))
    as [font_sizes common].
  cbn [self_doc self_font_sizes self_common_font_size self_extracted_title].
  reflexivity.
Qed.

Lemma process_pdf_forgets_state_witness :
  process_pdf (Extractor (Some (DocHandle 7 doc_control)) [24%Q] (Some 24%Q)
                         (lit "annual report"))
              (single_file_world (lit "abc.pdf") doc_abc) (lit "abc.pdf")
  = process_pdf new_extractor (single_file_world (lit "abc.pdf") doc_abc)
                (lit "abc.pdf").
Proof.
  apply (process_pdf_forgets_state _ _ _ doc_abc). reflexivity.
Defined.

Lemma process_pdf_open_fails_witness :
  process_pdf new_extractor (single_file_world (lit "abc.pdf") doc_abc)
              (lit "missing.pdf")
  = (new_extractor, single_file_world (lit "abc.pdf") doc_abc, Ok ERROR_RESULT).
Proof.
  apply (process_pdf_open_fails _ _ FileDataError). reflexivity.
Defined.

Lemma process_pdf_closes_nonempty_witness :
  exists self' res,
    process_pdf new_extractor (single_file_world (lit "abc.pdf") doc_abc)
                (lit "abc.pdf")
    = (self',
       World (files (single_file_world (lit "abc.pdf") doc_abc)) [] 1, Ok res)
    /\ title res
       = _extract_title_enhanced doc_abc (snd (_analyze_document_fonts doc_abc)).
Proof.
  apply (process_pdf_closes_nonempty
           (single_file_world (lit "abc.pdf") doc_abc) (lit "abc.pdf") doc_abc).
  - reflexivity.
  - discriminate.
  - intros [].
Defined.

(** ** Numbered headings *)

(** A text that matches the first heading pattern, a numeral, an optional
    dot, whitespace and a letter (as "1. Introduction"), gets H1 whatever
    its size. *)
Theorem numbered_heading_is_H1 (ld : line_data) (th : thresholds) :
  pattern_match (nth 0 heading_patterns (Prefix Void)) (strip (ld_text ld)) = true ->
  _determine_heading_level ld th = H1.
Proof.
  intros E. unfold _determine_heading_level.
  assert (E1 : re_match numbering_1 (strip (ld_text ld)) = true).
  { simpl in E. apply re_match_spec in E. destruct E as (u & v & Es & Hu).
    apply lang_Cat_inv in Hu. destruct Hu as (a & r & -> & Ha & Hr).
    apply lang_Cat_inv in Hr. destruct Hr as (b & r' & -> & Hb & Hr).
    apply lang_Cat_inv in Hr. destruct Hr as (c & l & -> & Hc & _).
    apply re_match_spec. exists (a ++ b ++ c), (l ++ v). split.
    - rewrite Es. repeat rewrite <- app_assoc. reflexivity.
    - unfold numbering_1. apply LCat; [assumption|]. apply LCat; assumption. }
  rewrite E1. reflexivity.
Qed.

Lemma numbered_heading_is_H1_witness :
  _determine_heading_level
    (LineData (lit "1. Introduction") 12 0 (Some (Bbox 0 10 100 22)) (5 # 10))
    (_calculate_size_thresholds 12) = H1.
Proof.
  apply (numbered_heading_is_H1
           (LineData (lit "1. Introduction") 12 0 (Some (Bbox 0 10 100 22)) (5 # 10))).
  vm_compute. reflexivity.
Defined.

(** ** The title and its source *)

Lemma title_candidates_trimmed (cfs : Q) (p : page) :
  Forall (fun c => strip (tc_text c) = tc_text c)
         (flat_map (title_block_candidates cfs) p).
Proof.
  apply Forall_forall. intros c Hc. apply in_flat_map in Hc.
  destruct Hc as (b & _ & Hc). unfold title_block_candidates in Hc.
  destruct (block_lines b) as [lines|]; [|contradiction].
  apply in_flat_map in Hc. destruct Hc as (ln & _ & Hc).
  unfold title_line_candidates in Hc.
  destruct (fold_left title_span_step ln ([], 0%Q, None, 0))
    as [[[line_text max_size] y_pos] flags].
  destruct (_is_potential_title cfs (strip line_text) max_size flags);
    [|contradiction].
  destruct Hc as [<- | []]. simpl.
  apply stripped_strip, strip_stripped.
Qed.

Lemma cleanable_strip (s : str) : cleanable s -> cleanable (strip s).
Proof.
  unfold cleanable. rewrite !Forall_forall. intros H c Hc.
  apply H. apply strip_In. assumption.
Qed.

Lemma stripped_app (a m b : str) :
  stripped a -> a <> [] -> stripped b -> b <> [] -> stripped (a ++ m ++ b).
Proof.
  intros [Ha _] Hna [_ Hb] Hnb. split.
  - destruct a as [|x a]; [congruence|]. exact Ha.
  - rewrite !rev_app_distr.
    destruct (rev b) as [|y r] eqn:Er.
    + apply (f_equal (@rev char)) in Er. rewrite rev_involutive in Er.
      simpl in Er. congruence.
    + exact Hb.
Qed.

(** Collapsing the whitespace of a trimmed text of three characters or
    more leaves three characters or more: the two ends, and something in
    between. *)
Lemma sub_spaces_len (s : str) :
  stripped s -> 3 <= len s -> 3 <= len (sub_spaces false s).
Proof.
  intros [Hh Hl] Hlen. destruct s as [|c1 t]; [unfold len in Hlen; simpl in Hlen; lia|].
  destruct (exists_last (l := t)) as (m & cn & ->).
  { intros ->. unfold len in Hlen. simpl in Hlen. lia. }
  simpl in Hl. rewrite rev_app_distr in Hl. simpl in Hl.
  simpl. rewrite Hh. rewrite (sub_spaces_app_nonspace _ _ _ Hl).
  destruct m as [|x m].
  { unfold len in Hlen. simpl in Hlen. lia. }
  unfold len. simpl. destruct (is_space x); simpl; rewrite length_app; simpl; lia.
Qed.

Lemma clean_text_len (s : str) :
  stripped s -> 3 <= len s -> cleanable s -> 3 <= len (_clean_text s).
Proof.
  intros Hs Hlen Hc. rewrite (clean_text_cleanable s Hc).
  rewrite (stripped_strip s Hs). apply sub_spaces_len; assumption.
Qed.

Lemma len_nonempty (s : str) : 3 <= len s -> s <> [].
Proof. intros H ->. unfold len in H. simpl in H. lia. Qed.

Lemma len_app_le (a b : str) : len a <= len (a ++ b).
Proof. unfold len. rewrite length_app. lia. Qed.

(** The source of a title taken from the text: the join of the first one
    or two candidates is trimmed and has three characters or more. *)
Lemma title_source_trimmed (sorted : list title_candidate) :
  sorted <> [] ->
  Forall (fun c => strip (tc_text c) = tc_text c
                   /\ 3 <= len (tc_text c) <= 150) sorted ->
  stripped (join (lit "  ") (map tc_text (firstn 2 sorted)))
  /\ 3 <= len (join (lit "  ") (map tc_text (firstn 2 sorted))).
Proof.
  intros Hne HF. destruct sorted as [|c1 rest]; [congruence|].
  inversion HF as [|? ? [Hs1 Hl1] Hrest]; subst.
  assert (S1 : stripped (tc_text c1)) by (rewrite <- Hs1; apply strip_stripped).
  destruct rest as [|c2 rest].
  - simpl. split; [exact S1 | lia].
  - inversion Hrest as [|? ? [Hs2 Hl2] _]; subst.
    assert (S2 : stripped (tc_text c2)) by (rewrite <- Hs2; apply strip_stripped).
    cbn [firstn map join]. split.
    + apply stripped_app; auto using len_nonempty; apply len_nonempty; lia.
    + pose proof (len_app_le (tc_text c1) (lit "  " ++ tc_text c2)). lia.
Qed.

Lemma extract_title_from_text_source (d : document) (cfs : Q) :
  _extract_title_from_text d cfs = UNKNOWN_TITLE
  \/ exists page pages sorted source,
       doc_pages d = page :: pages
       /\ sorted = py_sort title_key_ltb
                     (flat_map (title_block_candidates cfs) page)
       /\ sorted <> []
       /\ Forall (fun c => strip (tc_text c) = tc_text c
                           /\ 3 <= len (tc_text c) <= 150) sorted
       /\ source = join (lit "  ") (map tc_text (firstn 2 sorted))
       /\ strip source = source
       /\ 3 <= len source
       /\ _extract_title_from_text d cfs = _clean_text source
       /\ (cleanable source -> 3 <= len (_extract_title_from_text d cfs)).
Proof.
  unfold _extract_title_from_text.
  destruct (doc_pages d) as [|p ps]; [left; reflexivity|].
  pose proof (title_candidates_len cfs p) as HF.
  pose proof (title_candidates_trimmed cfs p) as HT.
  destruct (flat_map (title_block_candidates cfs) p) as [|c cs] eqn:Ec;
    [left; reflexivity|].
  right.
  pose proof (py_sort_perm title_candidate title_key_ltb (c :: cs)) as Hp.
  assert (Hne : py_sort title_key_ltb (c :: cs) <> []).
  { intros E. rewrite E in Hp. apply Permutation_nil in Hp. discriminate. }
  assert (Hwf : Forall (fun c => strip (tc_text c) = tc_text c
                                 /\ 3 <= len (tc_text c) <= 150)
                       (py_sort title_key_ltb (c :: cs))).
  { apply (Permutation_Forall (Permutation_sym Hp)).
    rewrite Forall_forall in *. intros x Hx. split; [apply HT | apply HF]; exact Hx. }
  destruct (title_source_trimmed _ Hne Hwf) as [Hs Hl].
  exists p, ps, (py_sort title_key_ltb (c :: cs)),
    (join (lit "  ") (map tc_text (firstn 2 (py_sort title_key_ltb (c :: cs))))).
  split; [reflexivity|].
  split; [rewrite Ec; reflexivity|].
  split; [assumption|].
  split; [assumption|].
  split; [reflexivity|].
  split; [apply stripped_strip; assumption|].
  split; [assumption|].
  split; [reflexivity|].
  intros Hc. apply clean_text_len; assumption.
Qed.

(** C4, amended. A title other than "Unknown Title" is the normalization
    of an accepted source.  The source is the trimmed label of the first
    bookmark, of more than 3 characters, or the join of the first one or
    two title candidates of the first page in the sorted order, each
    trimmed and of 3 to 150 characters, so that the source is trimmed and
    has 3 characters or more.  The normalization may shorten the source;
    where the source has no surrogates and no control characters other
    than whitespace, the title keeps 3 characters or more. *)
Theorem title_source_length (d : document) (cfs : Q) :
  _extract_title_enhanced d cfs = UNKNOWN_TITLE
  \/ (exists entry rest,
        doc_toc d = entry :: rest
        /\ strip (strip (toc_label entry)) = strip (toc_label entry)
        /\ 3 < len (strip (toc_label entry))
        /\ _extract_title_enhanced d cfs = _clean_text (strip (toc_label entry))
        /\ (cleanable (toc_label entry) ->
            3 <= len (_extract_title_enhanced d cfs)))
  \/ (exists page pages sorted source,
        doc_pages d = page :: pages
        /\ sorted = py_sort title_key_ltb
                      (flat_map (title_block_candidates cfs) page)
        /\ sorted <> []
        /\ Forall (fun c => strip (tc_text c) = tc_text c
                            /\ 3 <= len (tc_text c) <= 150) sorted
        /\ source = join (lit "  ") (map tc_text (firstn 2 sorted))
        /\ strip source = source
        /\ 3 <= len source
        /\ _extract_title_enhanced d cfs = _clean_text source
        /\ (cleanable source -> 3 <= len (_extract_title_enhanced d cfs))).
Proof.
  unfold _extract_title_enhanced.
  destruct (doc_toc d) as [|entry toc].
  - destruct (extract_title_from_text_source d cfs) as [H | H]; auto.
  - destruct (match strip (toc_label entry) with [] => false | _ :: _ => true end
              && negb (existsb (fun p => startswith p (lower (strip (toc_label entry))))
                               toc_prefixes)
              && (len (strip (toc_label entry)) >? 3)) eqn:E.
    + right. left. exists entry, toc.
      apply andb_true_iff in E. destruct E as [_ E].
      rewrite Z.gtb_ltb in E. apply Z.ltb_lt in E.
      split; [reflexivity|].
      split; [apply stripped_strip, strip_stripped|].
      split; [assumption|].
      split; [reflexivity|].
      intros Hc. apply clean_text_len;
        [apply strip_stripped | lia | apply cleanable_strip; assumption].
    + destruct (extract_title_from_text_source d cfs) as [H | H]; auto.
Qed.

Lemma title_source_length_witness :
  3 <= len (_extract_title_enhanced doc_two_titles 12).
Proof.
  destruct (title_source_length doc_two_titles 12)
    as [E | [(entry & rest & E & _) | (page & pages & sorted & source & Ep & Es
                                       & _ & _ & Ej & _ & _ & _ & Hlen)]].
  - vm_compute in E. discriminate E.
  - discriminate E.
  - apply Hlen. injection Ep as <- _. subst sorted source.
    vm_compute. repeat constructor; intros; discriminate.
Defined.
